(** * my-awesome-npm-package-with-bunjs: the utility functions

    A shallow embedding of [numberUtils] (src/utils/numbers/numbers.ts) and
    [stringUtils] (src/utils/strings/strings.ts), together with the
    ECMAScript built-ins the two objects call, and the properties of the
    package's functional contract.

    Conventions.
    - A JavaScript number that holds an integer is a [Z].  On such values
      [%] is exact and is the truncated remainder [Z.rem] (the result has
      the sign of the dividend; the [-0] that [-4 % 2] produces is [===] to
      [0], so it is the [0] of [Z]).
    - The additions and multiplications of the language round: [JSNumber]
      has the Numbers that integer arithmetic produces (the doubles that
      hold an integer, the infinities, NaN) with the rounding written out.
      On safe integers with safe results they are the operations of [Z].
    - A JavaScript string is the list of its UTF-16 code units, each an [N]
      below 65536.
    - A built-in that can throw returns a [completion].  [Runtime] reads the
      six operations once more over untyped arguments, where a wrong
      argument raises an exception. *)

From Stdlib Require Import ZArith NArith List Bool Lia String Ascii Permutation.
From Equations Require Import Equations.
From Equations.Prop Require Import Logic.
Import ListNotations.

Set Implicit Arguments.

(** ** ECMAScript built-ins used by the package *)

Module JS.

(** Abrupt completions: the exceptions the operators and built-ins used
    here can raise. *)
Inductive exn : Type := TypeError | RangeError.

Inductive completion (A : Type) : Type :=
| Normal (a : A)
| Throw (e : exn).
Arguments Normal {A} a.
Arguments Throw {A} e.

Definition returns {A} (c : completion A) : bool :=
  match c with Normal _ => true | Throw _ => false end.

(** [n % d] on integers: remainder of the division truncated toward zero. *)
Definition rem (n d : Z) : Z := Z.rem n d.

(** [x === y] and [x !== y] on numbers. *)
Definition strict_eq (x y : Z) : bool := Z.eqb x y.
Definition strict_neq (x y : Z) : bool := negb (strict_eq x y).

End JS.

(** *** The Number type on integers *)

Module JSNumber.

(** The values of the Number type that arithmetic on integers can produce:
    the doubles that hold an integer, the two infinities and NaN.  The two
    zeros are one value here, [===] and [%] not telling them apart. *)
Inductive number : Type :=
| Finite (n : Z)
| PosInfinity
| NegInfinity
| NaN.

(** [Number.MAX_SAFE_INTEGER] and [Number.isSafeInteger] on an integer. *)
Definition MAX_SAFE_INTEGER : Z := 2 ^ 53 - 1.

Definition isSafeInteger (n : Z) : bool := (Z.abs n <=? MAX_SAFE_INTEGER)%Z.

(** An exact integer result rounded to the nearest double, ties to the even
    significand: below [2 ^ 53] every integer is a double, above it the
    doubles are the multiples of [2 ^ e] that have a 53-bit quotient. *)
Definition round_to_double (x : Z) : Z :=
  let a := Z.abs x in
  if (a <? 2 ^ 53)%Z then x
  else
    let e := (Z.log2 a - 52)%Z in
    let q := (2 ^ e)%Z in
    let lo := (a / q)%Z in
    let r := (a mod q)%Z in
    let half := (q / 2)%Z in
    let m := if (r <? half)%Z then lo
             else if (half <? r)%Z then (lo + 1)%Z
             else if Z.even lo then lo else (lo + 1)%Z in
    (Z.sgn x * (m * q))%Z.

(** The Number an exact integer result becomes: its rounding, or an infinity
    when the rounding reaches [2 ^ 1024]. *)
Definition of_exact (x : Z) : number :=
  let r := round_to_double x in
  if (2 ^ 1024 <=? Z.abs r)%Z
  then (if (x <? 0)%Z then NegInfinity else PosInfinity)
  else Finite r.

Definition negate (a : number) : number :=
  match a with
  | Finite n => Finite (- n)
  | PosInfinity => NegInfinity
  | NegInfinity => PosInfinity
  | NaN => NaN
  end.

(** [a + b], [a - b] and [a * b] *)
Definition add (a b : number) : number :=
  match a, b with
  | NaN, _ | _, NaN => NaN
  | PosInfinity, NegInfinity | NegInfinity, PosInfinity => NaN
  | PosInfinity, _ | _, PosInfinity => PosInfinity
  | NegInfinity, _ | _, NegInfinity => NegInfinity
  | Finite x, Finite y => of_exact (x + y)
  end.

Definition sub (a b : number) : number := add a (negate b).

Definition infinity_times (inf : number) (x : Z) : number :=
  if (x =? 0)%Z then NaN
  else if (0 <? x)%Z then inf else negate inf.

Definition mul (a b : number) : number :=
  match a, b with
  | NaN, _ | _, NaN => NaN
  | Finite x, Finite y => of_exact (x * y)
  | Finite x, inf => infinity_times inf x
  | inf, Finite y => infinity_times inf y
  | PosInfinity, PosInfinity | NegInfinity, NegInfinity => PosInfinity
  | _, _ => NegInfinity
  end.

(** [a % b]: NaN when [a] is not finite or [b] is zero, [a] when [b] is an
    infinity, the truncated remainder otherwise. *)
Definition rem (a b : number) : number :=
  match a, b with
  | Finite x, Finite y => if (y =? 0)%Z then NaN else Finite (Z.rem x y)
  | Finite x, PosInfinity | Finite x, NegInfinity => Finite x
  | _, _ => NaN
  end.

(** [a === b] on Numbers: NaN is equal to nothing. *)
Definition strict_eq (a b : number) : bool :=
  match a, b with
  | Finite x, Finite y => (x =? y)%Z
  | PosInfinity, PosInfinity | NegInfinity, NegInfinity => true
  | _, _ => false
  end.

End JSNumber.

(** *** Array.prototype *)

Module JSArray.
Import JS.

Section Arrays.
Variable A : Type.

(** The loop of [reduce]: the callback is applied to the accumulator and
    each element, in index order. *)
Fixpoint reduce_loop (callbackfn : A -> A -> A) (accumulator : A) (O : list A) : A :=
  match O with
  | [] => accumulator
  | kValue :: rest => reduce_loop callbackfn (callbackfn accumulator kValue) rest
  end.

(** [arr.reduce(callbackfn, initialValue)]; [initialValue] is optional,
    and an empty array without one is a [TypeError]. *)
Definition reduce (callbackfn : A -> A -> A) (initialValue : option A) (O : list A)
  : completion A :=
  match initialValue, O with
  | Some a, _ => Normal (reduce_loop callbackfn a O)
  | None, first :: rest => Normal (reduce_loop callbackfn first rest)
  | None, [] => Throw TypeError
  end.

(** [arr.filter(predicate)]: the elements the predicate accepts, in order. *)
Fixpoint filter (predicate : A -> bool) (O : list A) : list A :=
  match O with
  | [] => []
  | kValue :: rest =>
      if predicate kValue then kValue :: filter predicate rest
      else filter predicate rest
  end.

(** [arr.reverse()] and [arr.length]. *)
Definition reverse (O : list A) : list A := List.rev O.
Definition length (O : list A) : Z := Z.of_nat (List.length O).

(** [arr.join(sep)] on an array of strings (lists of units). *)
Fixpoint join (sep : list A) (O : list (list A)) : list A :=
  match O with
  | [] => []
  | element :: rest =>
      match rest with
      | [] => element
      | _ :: _ => element ++ sep ++ join sep rest
      end
  end.
End Arrays.

End JSArray.

(** *** String.prototype *)

Module JSString.

Definition code_unit : Type := N.
Definition jsstring : Type := list code_unit.

Definition is_code_unit (c : N) : bool := (c <? 65536)%N.

(** A list of numbers is a string when every element is a 16-bit unit. *)
Definition well_formed (S : jsstring) : bool := forallb is_code_unit S.

(** A string literal of the source, written in ASCII. *)
Fixpoint lit (s : string) : jsstring :=
  match s with
  | EmptyString => []
  | String a rest => N_of_ascii a :: lit rest
  end.

(** [str.charAt(pos)]: the unit at [pos] as a string of length one, the
    empty string when [pos] is out of range. *)
Definition charAt (S : jsstring) (pos : Z) : jsstring :=
  let size := Z.of_nat (List.length S) in
  if ((pos <? 0) || (size <=? pos))%Z then []
  else match nth_error S (Z.to_nat pos) with
       | Some c => [c]
       | None => []
       end.

(** [str.slice(start)], with [end] left undefined. *)
Definition slice (S : jsstring) (start : Z) : jsstring :=
  let len := Z.of_nat (List.length S) in
  let from := if (start <? 0)%Z then Z.max (len + start) 0 else Z.min start len in
  let to := len in
  firstn (Z.to_nat (Z.max (to - from) 0)) (skipn (Z.to_nat from) S).

(** [str.split("")]: one string of length one per code unit. *)
Definition split_empty (S : jsstring) : list jsstring :=
  map (fun c => [c]) S.

(** [Boolean(s)] on a string: only the empty string is falsy. *)
Definition ToBoolean (s : jsstring) : bool :=
  match s with
  | [] => false
  | _ :: _ => true
  end.

(** **** toUpperCase *)

Definition is_leading_surrogate (c : N) : bool := ((55296 <=? c) && (c <=? 56319))%N.
Definition is_trailing_surrogate (c : N) : bool := ((56320 <=? c) && (c <=? 57343))%N.

Definition UTF16SurrogatePairToCodePoint (lead trail : N) : N :=
  ((lead - 55296) * 1024 + (trail - 56320) + 65536)%N.

(** A leading surrogate followed by a trailing one is one code point; every
    other unit, a lone surrogate too, is a code point by itself. *)
Fixpoint StringToCodePoints (S : jsstring) : list N :=
  match S with
  | [] => []
  | first :: rest =>
      match rest with
      | [] => [first]
      | second :: rest' =>
          if is_leading_surrogate first && is_trailing_surrogate second
          then UTF16SurrogatePairToCodePoint first second :: StringToCodePoints rest'
          else first :: StringToCodePoints rest
      end
  end.

Definition UTF16EncodeCodePoint (cp : N) : jsstring :=
  if (cp <=? 65535)%N then [cp]
  else [((cp - 65536) / 1024 + 55296)%N; ((cp - 65536) mod 1024 + 56320)%N].

Definition CodePointsToString (text : list N) : jsstring :=
  flat_map UTF16EncodeCodePoint text.

Section CaseMapping.
(** The upper-case mapping of the Unicode Default Case Conversion, the
    platform's table: the code points a code point is replaced by. *)
Variable toUppercase : N -> list N.

(** [str.toUpperCase()] *)
Definition toUpperCase (S : jsstring) : jsstring :=
  CodePointsToString (flat_map toUppercase (StringToCodePoints S)).
End CaseMapping.

(** What the proofs use of the platform's table.  Both hold of the Unicode
    character database: the Basic Latin small letters map to the capital
    letters 32 below them, and the upper-case mapping of a code point of
    the Basic Multilingual Plane starts with such a code point, one that
    the mapping leaves alone. *)
Definition maps_basic_latin (toUppercase : N -> list N) : Prop :=
  forall c, (97 <= c <= 122)%N -> toUppercase c = [(c - 32)%N].

Definition upper_head_fixed (toUppercase : N -> list N) : Prop :=
  forall c, (c < 65536)%N ->
    exists d t, toUppercase c = d :: t /\ (d < 65536)%N /\ toUppercase d = [d].

(** The rows of that table for Basic Latin and Latin-1 Supplement, the
    identity above them: micro sign to capital mu, sharp s to two capital
    S, y with diaeresis to its capital at 376, no capital for the division
    sign. *)
Definition latin1_toUppercase (c : N) : list N :=
  if ((97 <=? c) && (c <=? 122))%N then [(c - 32)%N]
  else if (c =? 181)%N then [924%N]
  else if (c =? 223)%N then [83%N; 83%N]
  else if (c =? 255)%N then [376%N]
  else if ((224 <=? c) && (c <=? 254) && negb (c =? 247))%N then [(c - 32)%N]
  else [c].

(** **** split on the regular expression [\s+] *)

(** The class [\s]: WhiteSpace and LineTerminator code points. *)
Definition class_s (c : N) : bool :=
  ((9 <=? c) && (c <=? 13)
   || (c =? 32) || (c =? 160) || (c =? 5760)
   || (8192 <=? c) && (c <=? 8202)
   || (c =? 8232) || (c =? 8233) || (c =? 8239) || (c =? 8287)
   || (c =? 12288) || (c =? 65279))%N.

(** The greedy loop of [+]: the input left after a longest run of [\s]. *)
Fixpoint skip_s (input : jsstring) : jsstring :=
  match input with
  | [] => []
  | c :: rest => if class_s c then skip_s rest else input
  end.

(** A sticky match of [\s+] at the start of [input]: the input after the
    match, or [None] when [input] does not start with white space. *)
Definition exec_s_plus (input : jsstring) : option jsstring :=
  match input with
  | [] => None
  | c :: rest => if class_s c then Some (skip_s rest) else None
  end.

(** The loop of [RegExp.prototype[Symbol.split]].  [T] is the substring
    from [p] to [q] and [input] the string from [q] on.  When the pattern
    does not match at [q], [q] advances by one unit; when it matches up to
    [e], [T] is pushed and [p] and [q] become [e].  (A match of [\s+] is
    never empty, so [e] differs from [p].)  At the end of the string the
    substring from [p] is pushed. *)
Equations? split_loop (T : jsstring) (input : jsstring) : list jsstring
  by wf (List.length input) lt :=
  split_loop T [] := [T];
  split_loop T (c :: rest) with inspect (exec_s_plus (c :: rest)) := {
    | exist _ None _ := split_loop (T ++ [c]) rest;
    | exist _ (Some after) _ := T :: split_loop [] after }.
Proof.
  - destruct (class_s c); [|discriminate].
    injection e as <-. clear.
    induction rest as [|d rest IH]; simpl; [lia|].
    destruct (class_s d); simpl; lia.
Qed.

(** [str.split(/\s+/)]: an empty string is answered before the loop, with
    no element if the pattern matches it and with the string itself if
    not. *)
Definition split_s_plus (S : jsstring) : list jsstring :=
  match S with
  | [] => match exec_s_plus [] with
          | Some _ => []
          | None => [S]
          end
  | _ :: _ => split_loop [] S
  end.

End JSString.

(** ** src/utils/numbers/numbers.ts *)

Module numberUtils.
Import JS.

(** [isEven: (num) => num % 2 === 0] *)
Definition isEven (num : Z) : bool := strict_eq (rem num 2) 0.

(** [isOdd: (num) => num % 2 !== 0] *)
Definition isOdd (num : Z) : bool := strict_neq (rem num 2) 0.

(** [sum: (nums) => nums.reduce((acc, val) => acc + val, 0)].  The number
    type, its [+] and its [0] are parameters, so that the definition reads
    the same on integers, on exact rationals or reals, and on doubles. *)
Section Sum.
Variable number : Type.
Variable add : number -> number -> number.
Variable zero : number.

Definition sum (nums : list number) : completion number :=
  JSArray.reduce (fun acc val => add acc val) (Some zero) nums.
End Sum.

(** [sum] at the exact addition of integers: what the code computes as
    long as the elements and the partial sums are safe integers
    ([sumNumber_safe] below), and the exact arithmetic the contract speaks
    of. *)
Definition sumZ (nums : list Z) : completion Z := sum Z.add 0%Z nums.

(** [sum] at the addition of Numbers, as the code adds: each partial sum is
    rounded to a double. *)
Definition sumNumber (nums : list JSNumber.number) : completion JSNumber.number :=
  sum JSNumber.add (JSNumber.Finite 0) nums.

End numberUtils.

(** ** src/utils/strings/strings.ts *)

Module stringUtils.
Import JSString.

Section Capitalize.
Variable toUppercase : N -> list N.

(** [capitalize: (str) => str.charAt(0).toUpperCase() + str.slice(1)] *)
Definition capitalize (str : jsstring) : jsstring :=
  toUpperCase toUppercase (charAt str 0) ++ slice str 1.
End Capitalize.

(** [reverse: (str) => str.split("").reverse().join("")] *)
Definition reverse (str : jsstring) : jsstring :=
  JSArray.join [] (JSArray.reverse (split_empty str)).

(** [countWords: (str) => str.split(/\s+/).filter(Boolean).length] *)
Definition countWords (str : jsstring) : Z :=
  JSArray.length (JSArray.filter ToBoolean (split_s_plus str)).

End stringUtils.

(** ** The contract's own words, for comparison with the code *)

Module WordRuns.
Import JSString.

(** The longest prefix of [input] without white space. *)
Fixpoint take_word (input : jsstring) : jsstring :=
  match input with
  | [] => []
  | c :: rest => if class_s c then [] else c :: take_word rest
  end.

(** Does a run of non-white-space units start at index [i]?  The unit at
    [i] is not white space and the unit before it is; [at_start] answers
    for the position before index 0. *)
Definition starts_run_after (at_start : bool) (S : jsstring) (i : nat) : bool :=
  match nth_error S i with
  | None => false
  | Some c =>
      negb (class_s c) &&
      match i with
      | O => at_start
      | Datatypes.S j =>
          match nth_error S j with
          | Some p => class_s p
          | None => false
          end
      end
  end.

Definition runs_after (at_start : bool) (S : jsstring) : list jsstring :=
  map (fun i => take_word (skipn i S))
      (List.filter (starts_run_after at_start S) (seq 0 (List.length S))).

(** A maximal run starts at the beginning of the string or after a white
    space, and extends to the next white space or the end. *)
Definition starts_run (S : jsstring) (i : nat) : bool := starts_run_after true S i.

Definition maximal_runs (S : jsstring) : list jsstring := runs_after true S.

End WordRuns.

(** ** The two objects at run time

    The types of the source are erased when the package is built: a caller
    can pass any value.  Here the operations are read again over arguments
    wider than their declared types, so that the exceptions of the language
    have a place: a parity test receives a Number or a BigInt, [sum] and the
    string operations receive their array or string, or [undefined] or
    [null]. *)

Module Runtime.
Import JS JSString.

(** The numeric values: Numbers and BigInts. *)
Inductive numeric : Type :=
| Number (x : JSNumber.number)
| BigInt (z : Z).

(** A reference that may be [undefined] or [null]. *)
Inductive nullish (A : Type) : Type :=
| Undefined
| Null
| Value (a : A).
Arguments Undefined {A}.
Arguments Null {A}.
Arguments Value {A} a.

(** Sequencing: an abrupt completion ends the evaluation. *)
Definition bind {A B : Type} (c : completion A) (k : A -> completion B) : completion B :=
  match c with
  | Normal a => k a
  | Throw e => Throw e
  end.

(** A method call [this.method(...)]: reading a property of [undefined] or
    [null] is a [TypeError]. *)
Definition invoke {A B : Type} (this : nullish A) (method : A -> completion B)
  : completion B :=
  match this with
  | Value a => method a
  | Undefined | Null => Throw TypeError
  end.

(** [a % b] and [a + b] on numeric values: mixing a BigInt and a Number is
    a [TypeError], the remainder of a BigInt by [0n] a [RangeError]. *)
Definition remainder (a b : numeric) : completion numeric :=
  match a, b with
  | Number x, Number y => Normal (Number (JSNumber.rem x y))
  | BigInt x, BigInt y =>
      if (y =? 0)%Z then Throw RangeError else Normal (BigInt (Z.rem x y))
  | _, _ => Throw TypeError
  end.

Definition plus (a b : numeric) : completion numeric :=
  match a, b with
  | Number x, Number y => Normal (Number (JSNumber.add x y))
  | BigInt x, BigInt y => Normal (BigInt (x + y))
  | _, _ => Throw TypeError
  end.

(** [a === b]: values of different types are not equal. *)
Definition strictly_equal (a b : numeric) : bool :=
  match a, b with
  | Number x, Number y => JSNumber.strict_eq x y
  | BigInt x, BigInt y => (x =? y)%Z
  | _, _ => false
  end.

(** [Array.prototype.reduce] with a callback that can throw. *)
Fixpoint reduce_loop (A : Type) (callbackfn : A -> A -> completion A)
         (accumulator : A) (O : list A) : completion A :=
  match O with
  | [] => Normal accumulator
  | kValue :: rest =>
      bind (callbackfn accumulator kValue)
           (fun result => reduce_loop callbackfn result rest)
  end.

Definition reduce (A : Type) (callbackfn : A -> A -> completion A)
           (initialValue : option A) (O : list A) : completion A :=
  match initialValue, O with
  | Some a, _ => reduce_loop callbackfn a O
  | None, first :: rest => reduce_loop callbackfn first rest
  | None, [] => Throw TypeError
  end.

(** [isEven: (num) => num % 2 === 0] *)
Definition isEven (num : numeric) : completion bool :=
  bind (remainder num (Number (JSNumber.Finite 2)))
       (fun r => Normal (strictly_equal r (Number (JSNumber.Finite 0)))).

(** [isOdd: (num) => num % 2 !== 0] *)
Definition isOdd (num : numeric) : completion bool :=
  bind (remainder num (Number (JSNumber.Finite 2)))
       (fun r => Normal (negb (strictly_equal r (Number (JSNumber.Finite 0))))).

(** [sum: (nums) => nums.reduce((acc, val) => acc + val, 0)] *)
Definition sum (nums : nullish (list numeric)) : completion numeric :=
  invoke nums
         (reduce (fun acc val => plus acc val) (Some (Number (JSNumber.Finite 0)))).

Section Capitalize.
Variable toUppercase : N -> list N.

(** [capitalize: (str) => str.charAt(0).toUpperCase() + str.slice(1)] *)
Definition capitalize (str : nullish jsstring) : completion jsstring :=
  bind (invoke str (fun S => Normal (charAt S 0))) (fun first =>
  bind (invoke (Value first) (fun S => Normal (toUpperCase toUppercase S))) (fun upper =>
  bind (invoke str (fun S => Normal (slice S 1))) (fun rest =>
  Normal (upper ++ rest)))).
End Capitalize.

(** [reverse: (str) => str.split("").reverse().join("")] *)
Definition reverse (str : nullish jsstring) : completion jsstring :=
  bind (invoke str (fun S => Normal (split_empty S))) (fun units =>
  bind (invoke (Value units) (fun O => Normal (JSArray.reverse O))) (fun reversed =>
  invoke (Value reversed) (fun O => Normal (JSArray.join [] O)))).

(** [countWords: (str) => str.split(/\s+/).filter(Boolean).length] *)
Definition countWords (str : nullish jsstring) : completion Z :=
  bind (invoke str (fun S => Normal (split_s_plus S))) (fun tokens =>
  bind (invoke (Value tokens) (fun O => Normal (JSArray.filter ToBoolean O))) (fun kept =>
  Normal (JSArray.length kept))).

End Runtime.

(** ** Safe integers *)

Module SafeIntegers.

(** Every element of the sequence and every partial sum from [acc] on is a
    safe integer. *)
Fixpoint sums_safe (acc : Z) (nums : list Z) : bool :=
  match nums with
  | [] => true
  | x :: rest =>
      JSNumber.isSafeInteger x && JSNumber.isSafeInteger (acc + x)
      && sums_safe (acc + x) rest
  end.

End SafeIntegers.

(** ** Vocabulary for the further properties *)

Module Boundary.
Import JSString.

(** Is the unit before the end of [S] a white space?  [before] answers for
    the empty string. *)
Fixpoint ends_in_space (before : bool) (S : jsstring) : bool :=
  match S with
  | [] => before
  | c :: rest => ends_in_space (class_s c) rest
  end.

(** Does [S] start with a unit that is not white space? *)
Definition starts_with_word (S : jsstring) : bool :=
  match S with
  | [] => false
  | c :: _ => negb (class_s c)
  end.

(** A word: a string that is not empty and holds no white space. *)
Definition is_word (w : jsstring) : bool :=
  ToBoolean w && forallb (fun c => negb (class_s c)) w.

(** A separator: a string that is not empty and holds white space only. *)
Definition is_separator (sep : jsstring) : bool :=
  ToBoolean sep && forallb class_s sep.

End Boundary.

Module CaseTable.
Import JSString.

(** Surrogates are the units from 55296 to 57343; a scalar value is a code
    point that is not a surrogate. *)
Definition is_surrogate (c : N) : bool :=
  is_leading_surrogate c || is_trailing_surrogate c.

Definition is_scalar_value (cp : N) : bool :=
  (cp <=? 1114111)%N && negb (is_surrogate cp).

(** More of what holds of the Unicode upper-case table.  It maps code
    points, that is numbers up to 1114111 (U+10FFFF), to code points. *)
Definition yields_code_points (toUppercase : N -> list N) : Prop :=
  forall c d, (c <= 1114111)%N -> In d (toUppercase c) -> (d <= 1114111)%N.

(** White space has no case, and the upper case of another unit is a word. *)
Definition respects_white_space (toUppercase : N -> list N) : Prop :=
  forall c, (c < 65536)%N ->
    if class_s c then toUppercase c = [c]
    else Boundary.is_word (CodePointsToString (toUppercase c)) = true.

End CaseTable.

(** * Properties *)

Import JSString.

(** ** numberUtils *)

Section NumberFacts.
Import JS numberUtils.
Local Open Scope Z_scope.

Lemma rem_2_zero_iff (n : Z) : rem n 2 = 0 <-> n mod 2 = 0.
Proof.
  unfold rem. split; intro H.
  - apply Z.rem_divide in H; [|lia]. apply Z.mod_divide; [lia|exact H].
  - apply Z.rem_divide; [lia|]. apply Z.mod_divide; [lia|exact H].
Qed.

Lemma isEven_true_iff (n : Z) : isEven n = true <-> rem n 2 = 0.
Proof. unfold isEven, strict_eq. apply Z.eqb_eq. Qed.

Lemma isOdd_true_iff (n : Z) : isOdd n = true <-> rem n 2 <> 0.
Proof.
  unfold isOdd, strict_neq, strict_eq.
  rewrite negb_true_iff. apply Z.eqb_neq.
Qed.

Lemma reduce_loop_fold_left (A : Type) (f : A -> A -> A) (O : list A) (acc : A) :
  JSArray.reduce_loop f acc O = fold_left f O acc.
Proof.
  revert acc. induction O as [|x O IH]; intro acc; simpl; [reflexivity|apply IH].
Qed.

(** A fold with an associative and commutative operation can take its
    first element last. *)
Lemma fold_left_assoc_comm_cons (A : Type) (f : A -> A -> A)
      (f_assoc : forall a b c, f (f a b) c = f a (f b c))
      (f_comm : forall a b, f a b = f b a)
      (l : list A) (x acc : A) :
  fold_left f l (f acc x) = f (fold_left f l acc) x.
Proof.
  revert acc. induction l as [|y l IH]; intro acc; simpl; [reflexivity|].
  rewrite <- IH. f_equal.
  rewrite !f_assoc. f_equal. apply f_comm.
Qed.

Lemma fold_left_assoc_comm_rev (A : Type) (f : A -> A -> A)
      (f_assoc : forall a b c, f (f a b) c = f a (f b c))
      (f_comm : forall a b, f a b = f b a)
      (l : list A) (acc : A) :
  fold_left f (rev l) acc = fold_left f l acc.
Proof.
  revert acc. induction l as [|x l IH]; intro acc; simpl; [reflexivity|].
  rewrite fold_left_app. simpl. rewrite IH.
  symmetry. apply fold_left_assoc_comm_cons; assumption.
Qed.

End NumberFacts.

(** C1.  For every integer [n], [isOdd n] is the negation of [isEven n], so
    that exactly one of the two holds; negative integers are no exception. *)
Theorem isOdd_complements_isEven :
  forall n : Z,
    numberUtils.isOdd n = negb (numberUtils.isEven n) /\
    numberUtils.isEven n <> numberUtils.isOdd n.
Proof.
  intro n. unfold numberUtils.isOdd, numberUtils.isEven, JS.strict_neq.
  split; [reflexivity|].
  destruct (JS.strict_eq (JS.rem n 2) 0); discriminate.
Qed.

(** C2.  [isEven n] is true exactly when 2 divides [n] (its mathematical
    residue modulo 2 is 0) and [isOdd n] exactly when the residue is not 0.
    This holds on negative integers although [%] gives them a negative
    remainder: [-3 % 2] is [-1], and [isEven (-4)] and [isOdd (-3)] hold. *)
Theorem parity_by_divisibility :
  (forall n : Z, numberUtils.isEven n = true <-> (n mod 2 = 0)%Z) /\
  (forall n : Z, numberUtils.isEven n = true <-> (2 | n)%Z) /\
  (forall n : Z, numberUtils.isOdd n = true <-> (n mod 2 <> 0)%Z) /\
  numberUtils.isEven (-4) = true /\
  numberUtils.isOdd (-3) = true /\
  JS.rem (-3) 2 = (-1)%Z.
Proof.
  repeat split; try reflexivity.
  - intro H. apply rem_2_zero_iff, isEven_true_iff, H.
  - intro H. apply isEven_true_iff, rem_2_zero_iff, H.
  - intro H. apply Z.mod_divide; [lia|]. apply rem_2_zero_iff, isEven_true_iff, H.
  - intro H. apply isEven_true_iff, rem_2_zero_iff. apply Z.mod_divide in H; [exact H|lia].
  - intros H E. apply isOdd_true_iff in H. apply H, rem_2_zero_iff, E.
  - intro H. apply isOdd_true_iff. intro E. apply H, rem_2_zero_iff, E.
Qed.

(** C3.  Whatever the numbers and their addition are, [sum] returns the left
    fold of the addition over the sequence from the accumulator 0, the
    elements added in sequence order; the empty sequence gives 0 and
    [sum [1;2;3;4]] is 10. *)
Theorem sum_is_left_fold :
  (forall (number : Type) (add : number -> number -> number) (zero : number)
          (nums : list number),
      numberUtils.sum add zero nums = JS.Normal (fold_left add nums zero)) /\
  (forall (number : Type) (add : number -> number -> number) (zero : number)
          (a b c : number),
      numberUtils.sum add zero [a; b; c] = JS.Normal (add (add (add zero a) b) c)) /\
  (forall (number : Type) (add : number -> number -> number) (zero : number),
      numberUtils.sum add zero [] = JS.Normal zero) /\
  numberUtils.sumZ [1; 2; 3; 4]%Z = JS.Normal 10%Z /\
  numberUtils.sumNumber (map JSNumber.Finite [1; 2; 3; 4]%Z)
  = JS.Normal (JSNumber.Finite 10).
Proof.
  repeat split; try reflexivity.
  intros. unfold numberUtils.sum, JSArray.reduce.
  rewrite reduce_loop_fold_left. reflexivity.
Qed.

(** C8.  Under exact arithmetic, that is when the addition is associative
    and commutative, [sum] of a sequence equals [sum] of its reversal. *)
Theorem sum_reverse (number : Type) (add : number -> number -> number) (zero : number)
        (add_assoc : forall a b c, add (add a b) c = add a (add b c))
        (add_comm : forall a b, add a b = add b a)
        (nums : list number) :
  numberUtils.sum add zero nums = numberUtils.sum add zero (rev nums).
Proof.
  unfold numberUtils.sum, JSArray.reduce.
  rewrite !reduce_loop_fold_left.
  rewrite fold_left_assoc_comm_rev by assumption. reflexivity.
Qed.

Lemma sum_reverse_witness :
  numberUtils.sumZ [1; 2; 3]%Z = numberUtils.sumZ (rev [1; 2; 3]%Z).
Proof.
  unfold numberUtils.sumZ.
  apply (@sum_reverse Z Z.add 0%Z); intros; lia.
Defined.

(** ** stringUtils: capitalize *)

Section CapitalizeFacts.
Import stringUtils.
Variable toUppercase : N -> list N.

Lemma charAt_0_cons (c : code_unit) (rest : jsstring) : charAt (c :: rest) 0 = [c].
Proof.
  unfold charAt.
  replace ((0 <? 0)%Z || (Z.of_nat (List.length (c :: rest)) <=? 0)%Z) with false.
  - reflexivity.
  - symmetry. apply orb_false_iff. split; [reflexivity|].
    apply Z.leb_gt. simpl List.length. lia.
Qed.

Lemma slice_1_cons (c : code_unit) (rest : jsstring) : slice (c :: rest) 1 = rest.
Proof.
  unfold slice.
  replace (Z.of_nat (List.length (c :: rest))) with (Z.of_nat (List.length rest) + 1)%Z
    by (simpl List.length; lia).
  change (1 <? 0)%Z with false. cbv iota.
  rewrite Z.min_l by lia.
  change (Z.to_nat 1) with 1%nat. simpl skipn.
  replace (Z.to_nat _) with (List.length rest) by lia.
  apply firstn_all.
Qed.

Lemma toUpperCase_unit (c : code_unit) :
  toUpperCase toUppercase [c] = CodePointsToString (toUppercase c).
Proof. unfold toUpperCase. simpl. rewrite app_nil_r. reflexivity. Qed.

Lemma capitalize_nil : capitalize toUppercase [] = [].
Proof. reflexivity. Qed.

Lemma capitalize_cons (c : code_unit) (rest : jsstring) :
  capitalize toUppercase (c :: rest) = toUpperCase toUppercase [c] ++ rest.
Proof. unfold capitalize. rewrite charAt_0_cons, slice_1_cons. reflexivity. Qed.

End CapitalizeFacts.

Lemma latin1_maps_basic_latin : maps_basic_latin latin1_toUppercase.
Proof.
  intros c [Hlo Hhi]. unfold latin1_toUppercase.
  replace ((97 <=? c)%N && (c <=? 122)%N) with true; [reflexivity|].
  symmetry. apply andb_true_iff. split; apply N.leb_le; assumption.
Qed.

Lemma latin1_upper_head_fixed : upper_head_fixed latin1_toUppercase.
Proof.
  assert (fixed : forall d : N,
             (d < 97 \/ 122 < d)%N -> d <> 181%N -> d <> 223%N -> d <> 255%N ->
             (d < 224 \/ 254 < d \/ d = 247)%N ->
             latin1_toUppercase d = [d]).
  { intros d H1 H2 H3 H4 H5. unfold latin1_toUppercase.
    replace ((97 <=? d)%N && (d <=? 122)%N) with false
      by (symmetry; apply andb_false_iff; rewrite !N.leb_gt; lia).
    replace (d =? 181)%N with false by (symmetry; apply N.eqb_neq; assumption).
    replace (d =? 223)%N with false by (symmetry; apply N.eqb_neq; assumption).
    replace (d =? 255)%N with false by (symmetry; apply N.eqb_neq; assumption).
    replace ((224 <=? d)%N && (d <=? 254)%N && negb (d =? 247)%N) with false;
      [reflexivity|].
    symmetry. rewrite !andb_false_iff, negb_false_iff, !N.leb_gt, N.eqb_eq. lia. }
  intros c Hc. unfold latin1_toUppercase at 1.
  destruct ((97 <=? c)%N && (c <=? 122)%N) eqn:E1.
  { apply andb_true_iff in E1. rewrite !N.leb_le in E1.
    exists (c - 32)%N, []. repeat split; [lia|]. apply fixed; lia. }
  apply andb_false_iff in E1. rewrite !N.leb_gt in E1.
  destruct (c =? 181)%N eqn:E2.
  { exists 924%N, []. repeat split; reflexivity. }
  apply N.eqb_neq in E2.
  destruct (c =? 223)%N eqn:E3.
  { exists 83%N, [83%N]. repeat split; reflexivity. }
  apply N.eqb_neq in E3.
  destruct (c =? 255)%N eqn:E4.
  { exists 376%N, []. repeat split; reflexivity. }
  apply N.eqb_neq in E4.
  destruct ((224 <=? c)%N && (c <=? 254)%N && negb (c =? 247)%N) eqn:E5.
  { rewrite !andb_true_iff, negb_true_iff, !N.leb_le, N.eqb_neq in E5.
    exists (c - 32)%N, []. repeat split; [lia|]. apply fixed; lia. }
  rewrite !andb_false_iff, negb_false_iff, !N.leb_gt, N.eqb_eq in E5.
  exists c, []. repeat split; [assumption|]. apply fixed; lia.
Qed.

(** C5.  [capitalize] returns the string with its first character (its first
    UTF-16 unit, what [charAt] gives) replaced by its upper case and all
    that follows left as it is; the empty string gives the empty string;
    and, the table mapping the Basic Latin small letters to their capitals,
    "hello" gives "Hello". *)
Theorem capitalize_first_unit (toUppercase : N -> list N)
        (basic_latin : maps_basic_latin toUppercase) :
  (forall (c : code_unit) (rest : jsstring),
      stringUtils.capitalize toUppercase (c :: rest)
      = toUpperCase toUppercase [c] ++ rest) /\
  (forall c : code_unit, toUpperCase toUppercase [c] = CodePointsToString (toUppercase c)) /\
  stringUtils.capitalize toUppercase (lit "") = lit "" /\
  stringUtils.capitalize toUppercase (lit "hello") = lit "Hello".
Proof.
  split; [apply capitalize_cons|].
  split; [apply toUpperCase_unit|].
  split; [reflexivity|].
  change (lit "hello") with (104%N :: lit "ello").
  rewrite capitalize_cons, toUpperCase_unit.
  rewrite (basic_latin 104%N) by lia. reflexivity.
Qed.

Lemma capitalize_first_unit_witness :
  maps_basic_latin latin1_toUppercase /\
  stringUtils.capitalize latin1_toUppercase (lit "hello") = lit "Hello".
Proof.
  split; [exact latin1_maps_basic_latin|].
  apply (capitalize_first_unit latin1_maps_basic_latin).
Defined.

(** C7.  [capitalize] is idempotent: on every string, capitalizing the
    capitalized string changes nothing.  The platform's table enters through
    one fact: the upper case of a unit starts with a unit that upper-casing
    leaves alone. *)
Theorem capitalize_idempotent (toUppercase : N -> list N)
        (head_fixed : upper_head_fixed toUppercase)
        (str : jsstring) (wf : well_formed str = true) :
  stringUtils.capitalize toUppercase (stringUtils.capitalize toUppercase str)
  = stringUtils.capitalize toUppercase str.
Proof.
  destruct str as [|c rest]; [reflexivity|].
  simpl in wf. apply andb_true_iff in wf. destruct wf as [Hc _].
  apply N.ltb_lt in Hc.
  destruct (head_fixed c Hc) as (d & t & Hup & Hd & Hfix).
  rewrite capitalize_cons, toUpperCase_unit, Hup.
  assert (Henc : UTF16EncodeCodePoint d = [d]).
  { unfold UTF16EncodeCodePoint.
    replace (d <=? 65535)%N with true; [reflexivity|].
    symmetry. apply N.leb_le. lia. }
  unfold CodePointsToString. simpl flat_map. rewrite Henc. simpl app.
  rewrite capitalize_cons, toUpperCase_unit, Hfix.
  unfold CodePointsToString. simpl flat_map. rewrite Henc. reflexivity.
Qed.

Lemma capitalize_idempotent_witness :
  stringUtils.capitalize latin1_toUppercase
    (stringUtils.capitalize latin1_toUppercase [223%N; 97%N])
  = stringUtils.capitalize latin1_toUppercase [223%N; 97%N].
Proof.
  apply (capitalize_idempotent latin1_upper_head_fixed). reflexivity.
Defined.

(** The unit of [capitalize] is the UTF-16 unit: on a string that starts
    with a surrogate pair (here U+10428, a small letter of the Deseret
    block) the table is asked about the leading surrogate alone, where
    [toUpperCase] on the whole string asks about the code point. *)
Remark capitalize_surrogate_pair (toUppercase : N -> list N) (rest : jsstring) :
  stringUtils.capitalize toUppercase (55297%N :: 56360%N :: rest)
  = CodePointsToString (toUppercase 55297%N) ++ 56360%N :: rest /\
  toUpperCase toUppercase [55297%N; 56360%N]
  = CodePointsToString (toUppercase 66600%N).
Proof.
  split.
  - rewrite capitalize_cons, toUpperCase_unit. reflexivity.
  - unfold toUpperCase. simpl. rewrite app_nil_r. reflexivity.
Qed.

(** ** stringUtils: countWords *)

Section CountWordsFacts.
Import stringUtils WordRuns.

Lemma split_loop_nil (T : jsstring) : split_loop T [] = [T].
Proof. simp split_loop. reflexivity. Qed.

Lemma split_loop_cons (T : jsstring) (c : code_unit) (rest : jsstring) :
  split_loop T (c :: rest) =
  if class_s c then T :: split_loop [] (skip_s rest)
  else split_loop (T ++ [c]) rest.
Proof.
  simp split_loop.
  destruct (inspect (exec_s_plus (c :: rest))) as [[after|] e];
    simp split_loop; unfold exec_s_plus in e;
    destruct (class_s c); try discriminate e.
  - injection e as <-. reflexivity.
  - reflexivity.
Qed.

Lemma skip_s_length (input : jsstring) :
  (List.length (skip_s input) <= List.length input)%nat.
Proof.
  induction input as [|c rest IH]; simpl; [lia|].
  destruct (class_s c); simpl; lia.
Qed.

Lemma starts_run_after_succ (b : bool) (c : code_unit) (rest : jsstring) (j : nat) :
  starts_run_after b (c :: rest) (Datatypes.S j) = starts_run_after (class_s c) rest j.
Proof.
  unfold starts_run_after. simpl nth_error.
  destruct (nth_error rest j) as [x|]; [|reflexivity].
  destruct j as [|k]; reflexivity.
Qed.

Lemma runs_after_cons (b : bool) (c : code_unit) (rest : jsstring) :
  runs_after b (c :: rest) =
  (if negb (class_s c) && b then [take_word (c :: rest)] else [])
    ++ runs_after (class_s c) rest.
Proof.
  unfold runs_after. simpl List.length. rewrite <- cons_seq, <- seq_shift.
  simpl List.filter.
  assert (tail :
    map (fun i => take_word (skipn i (c :: rest)))
        (List.filter (starts_run_after b (c :: rest)) (map Datatypes.S (seq 0 (List.length rest))))
    = map (fun i => take_word (skipn i rest))
          (List.filter (starts_run_after (class_s c) rest) (seq 0 (List.length rest)))).
  { induction (seq 0 (List.length rest)) as [|j l IH]; [reflexivity|].
    simpl. rewrite starts_run_after_succ.
    destruct (starts_run_after (class_s c) rest j); simpl; rewrite IH; reflexivity. }
  unfold starts_run_after at 1. simpl nth_error.
  destruct (negb (class_s c) && b); simpl; rewrite tail; reflexivity.
Qed.

Lemma runs_after_nil (b : bool) : runs_after b [] = [].
Proof. reflexivity. Qed.

Lemma runs_after_skip_s (input : jsstring) :
  runs_after true (skip_s input) = runs_after true input.
Proof.
  induction input as [|c rest IH]; [reflexivity|].
  simpl skip_s. destruct (class_s c) eqn:E; [|reflexivity].
  rewrite IH, (runs_after_cons true c rest), E. reflexivity.
Qed.

(** The tokens the split loop keeps: the pending token [T], when it is not
    empty, completed by the word that starts the input, then the runs of
    the input. *)
Lemma filter_split_loop (n : nat) :
  forall (T input : jsstring),
    (List.length input <= n)%nat ->
    JSArray.filter ToBoolean (split_loop T input) =
    match T with
    | [] => runs_after true input
    | _ :: _ => (T ++ take_word input) :: runs_after false input
    end.
Proof.
  induction n as [|n IH]; intros T input Hlen.
  - destruct input; [|simpl in Hlen; lia].
    rewrite split_loop_nil. destruct T; simpl; [reflexivity|].
    rewrite app_nil_r. reflexivity.
  - destruct input as [|c rest].
    { rewrite split_loop_nil. destruct T; simpl; [reflexivity|].
      rewrite app_nil_r. reflexivity. }
    simpl in Hlen.
    rewrite split_loop_cons, !runs_after_cons. simpl take_word.
    destruct (class_s c) eqn:E; simpl negb; simpl andb.
    + assert (Hskip : JSArray.filter ToBoolean (split_loop [] (skip_s rest))
                      = runs_after true rest).
      { rewrite (IH [] (skip_s rest)).
        - apply runs_after_skip_s.
        - pose proof (skip_s_length rest). lia. }
      destruct T as [|t T']; simpl; rewrite Hskip; [reflexivity|].
      rewrite app_nil_r. reflexivity.
    + rewrite (IH (T ++ [c]) rest) by lia.
      destruct T as [|t T']; simpl; [reflexivity|].
      rewrite <- app_assoc. reflexivity.
Qed.

Lemma kept_tokens_are_runs (str : jsstring) :
  JSArray.filter ToBoolean (split_s_plus str) = maximal_runs str.
Proof.
  unfold maximal_runs. destruct str as [|c rest]; [reflexivity|].
  unfold split_s_plus.
  apply (filter_split_loop (n := List.length (c :: rest)) [] (c :: rest)). lia.
Qed.

Lemma runs_nil_iff (input : jsstring) :
  runs_after true input = [] <-> forallb class_s input = true.
Proof.
  induction input as [|c rest IH]; [simpl; tauto|].
  rewrite runs_after_cons. simpl forallb.
  destruct (class_s c); simpl; [exact IH|].
  split; discriminate.
Qed.

(** The spec-side definition is what it is meant to be: every run is not
    empty and holds no white space. *)
Lemma take_word_no_space (input : jsstring) :
  forallb (fun c => negb (class_s c)) (take_word input) = true.
Proof.
  induction input as [|c rest IH]; [reflexivity|].
  simpl. destruct (class_s c) eqn:E; simpl; [reflexivity|].
  rewrite E. exact IH.
Qed.

Lemma runs_after_words (input : jsstring) (b : bool) :
  Forall (fun w => w <> [] /\ forallb (fun c => negb (class_s c)) w = true)
         (runs_after b input).
Proof.
  revert b. induction input as [|c rest IH]; intro b; [constructor|].
  rewrite runs_after_cons.
  destruct (negb (class_s c) && b) eqn:E; simpl; [|apply IH].
  constructor; [|apply IH].
  apply andb_true_iff in E. destruct E as [E _]. apply negb_true_iff in E.
  split.
  - simpl. rewrite E. discriminate.
  - apply (take_word_no_space (c :: rest)).
Qed.

End CountWordsFacts.

(** C4.  [countWords] returns the number of maximal runs of units that are
    not white space: the tokens that [split] on [\s+] produces and
    [filter(Boolean)] keeps are these runs, in order, and their number is
    the number of indices at which a run starts.  The three examples of the
    contract follow. *)
Theorem countWords_counts_maximal_runs :
  (forall str : jsstring,
      stringUtils.countWords str
      = Z.of_nat (List.length (WordRuns.maximal_runs str))) /\
  (forall str : jsstring,
      stringUtils.countWords str
      = Z.of_nat (List.length (List.filter (WordRuns.starts_run str)
                                           (seq 0 (List.length str))))) /\
  (forall str : jsstring,
      JSArray.filter ToBoolean (split_s_plus str) = WordRuns.maximal_runs str) /\
  split_s_plus (lit " hello   world ") = [lit ""; lit "hello"; lit "world"; lit ""] /\
  stringUtils.countWords (lit "") = 0%Z /\
  stringUtils.countWords (lit "hello world") = 2%Z /\
  stringUtils.countWords (lit "hello   world   test") = 3%Z.
Proof.
  repeat split; try reflexivity.
  - intro str. unfold stringUtils.countWords, JSArray.length.
    rewrite kept_tokens_are_runs. reflexivity.
  - intro str. unfold stringUtils.countWords, JSArray.length.
    rewrite kept_tokens_are_runs.
    unfold WordRuns.maximal_runs, WordRuns.runs_after.
    rewrite length_map. reflexivity.
  - apply kept_tokens_are_runs.
Qed.

(** C10.  [countWords] returns 0 exactly on the strings without a unit that
    is not white space: the empty string, and also the strings made of
    white space only, such as three spaces. *)
Theorem countWords_zero_iff_blank :
  (forall str : jsstring,
      stringUtils.countWords str = 0%Z <-> forallb class_s str = true) /\
  (forall str : jsstring,
      stringUtils.countWords str = 0%Z <->
      forall c, In c str -> class_s c = true) /\
  stringUtils.countWords (lit "   ") = 0%Z.
Proof.
  assert (main : forall str : jsstring,
             stringUtils.countWords str = 0%Z <-> forallb class_s str = true).
  { intro str. unfold stringUtils.countWords, JSArray.length.
    rewrite kept_tokens_are_runs. unfold WordRuns.maximal_runs.
    rewrite <- runs_nil_iff.
    destruct (WordRuns.runs_after true str); simpl; split;
      intro H; try reflexivity; try discriminate H; lia. }
  split; [exact main|]. split; [|reflexivity].
  intro str. rewrite main. apply forallb_forall.
Qed.

(** ** stringUtils: reverse *)

Lemma join_empty_singletons (A : Type) (l : list A) :
  JSArray.join [] (map (fun c => [c]) l) = l.
Proof.
  induction l as [|x l IH]; [reflexivity|].
  destruct l as [|y l]; [reflexivity|].
  change (x :: JSArray.join [] (map (fun c => [c]) (y :: l)) = x :: y :: l).
  rewrite IH. reflexivity.
Qed.

Lemma reverse_rev (str : jsstring) : stringUtils.reverse str = rev str.
Proof.
  unfold stringUtils.reverse, JSArray.reverse, split_empty.
  rewrite <- map_rev. apply join_empty_singletons.
Qed.

(** C6.  [reverse] returns the units of the string in reverse order: the
    result has the length of the string and its unit at an index [i] below
    the length is the unit of the string at index [length - 1 - i].  It is
    an involution, the
    empty string gives the empty string and "hello" gives "olleh". *)
Theorem reverse_involutive :
  (forall str : jsstring, stringUtils.reverse (stringUtils.reverse str) = str) /\
  (forall str : jsstring,
      List.length (stringUtils.reverse str) = List.length str) /\
  (forall (str : jsstring) (i : nat),
      nth_error (stringUtils.reverse str) i
      = if (i <? List.length str)%nat
        then nth_error str (List.length str - 1 - i)
        else None) /\
  (forall str : jsstring, Permutation str (stringUtils.reverse str)) /\
  stringUtils.reverse (lit "") = lit "" /\
  stringUtils.reverse (lit "hello") = lit "olleh".
Proof.
  repeat split; try reflexivity.
  - intro str. rewrite !reverse_rev. apply rev_involutive.
  - intro str. rewrite reverse_rev. apply length_rev.
  - intros str i. rewrite reverse_rev, nth_error_rev.
    destruct (i <? List.length str)%nat; [|reflexivity].
    f_equal. lia.
  - intro str. rewrite reverse_rev. apply Permutation_rev.
Qed.

(** ** Totality *)

Lemma runtime_reduce_numbers (nums : list JSNumber.number) (acc : JSNumber.number) :
  Runtime.reduce_loop (fun a v => Runtime.plus a v) (Runtime.Number acc)
                      (map Runtime.Number nums)
  = JS.Normal (Runtime.Number (fold_left JSNumber.add nums acc)).
Proof.
  revert acc. induction nums as [|x nums IH]; intro acc; [reflexivity|].
  simpl. apply IH.
Qed.

(** C9.  None of the six operations fails on its domain.  Read at run time,
    where a wrong argument does raise an exception, each of them completes
    normally on every argument of its declared type, with the value of the
    typed operation: the parity tests on every Number, [sum] on every array
    of Numbers ([reduce] is given an initial value, so the empty array is
    no exception), [capitalize], [reverse] and [countWords] on every string
    ([charAt] out of range is the empty string, which has a
    [toUpperCase]).  On the empty inputs the results are 0 for [sum], the
    empty string for [capitalize] and [reverse], and 0 for [countWords]. *)
Theorem operations_total :
  (forall x : JSNumber.number,
      JS.returns (Runtime.isEven (Runtime.Number x)) = true /\
      JS.returns (Runtime.isOdd (Runtime.Number x)) = true) /\
  (forall n : Z,
      Runtime.isEven (Runtime.Number (JSNumber.Finite n))
      = JS.Normal (numberUtils.isEven n) /\
      Runtime.isOdd (Runtime.Number (JSNumber.Finite n))
      = JS.Normal (numberUtils.isOdd n)) /\
  (forall nums : list JSNumber.number,
      Runtime.sum (Runtime.Value (map Runtime.Number nums))
      = JS.Normal (Runtime.Number (fold_left JSNumber.add nums (JSNumber.Finite 0)))) /\
  (forall nums : list JSNumber.number,
      exists total, numberUtils.sumNumber nums = JS.Normal total /\
        Runtime.sum (Runtime.Value (map Runtime.Number nums))
        = JS.Normal (Runtime.Number total)) /\
  (forall (toUppercase : N -> list N) (str : jsstring),
      Runtime.capitalize toUppercase (Runtime.Value str)
      = JS.Normal (stringUtils.capitalize toUppercase str)) /\
  (forall str : jsstring,
      Runtime.reverse (Runtime.Value str) = JS.Normal (stringUtils.reverse str)) /\
  (forall str : jsstring,
      Runtime.countWords (Runtime.Value str)
      = JS.Normal (stringUtils.countWords str)) /\
  (forall (number : Type) (add : number -> number -> number) (zero : number)
          (nums : list number),
      exists total, numberUtils.sum add zero nums = JS.Normal total) /\
  (forall (number : Type) (add : number -> number -> number) (zero : number),
      numberUtils.sum add zero [] = JS.Normal zero) /\
  Runtime.sum (Runtime.Value []) = JS.Normal (Runtime.Number (JSNumber.Finite 0)) /\
  (forall toUppercase : N -> list N,
      Runtime.capitalize toUppercase (Runtime.Value (lit "")) = JS.Normal (lit "")) /\
  Runtime.reverse (Runtime.Value (lit "")) = JS.Normal (lit "") /\
  Runtime.countWords (Runtime.Value (lit "")) = JS.Normal 0%Z.
Proof.
  split; [intros [n| | |]; split; reflexivity|].
  split; [intro n; split; reflexivity|].
  split; [intro nums; apply runtime_reduce_numbers|].
  split.
  { intro nums. exists (fold_left JSNumber.add nums (JSNumber.Finite 0)).
    split; [|apply runtime_reduce_numbers].
    unfold numberUtils.sumNumber, numberUtils.sum, JSArray.reduce.
    rewrite reduce_loop_fold_left. reflexivity. }
  repeat split; try reflexivity.
  intros. eexists. reflexivity.
Qed.

(** Outside the declared types the same operations do raise exceptions: a
    BigInt meets the Number 2 or 0, and [undefined] and [null] have no
    methods. *)
Remark exceptions_outside_the_domain :
  (forall z : Z, Runtime.isEven (Runtime.BigInt z) = JS.Throw JS.TypeError) /\
  (forall z : Z, Runtime.isOdd (Runtime.BigInt z) = JS.Throw JS.TypeError) /\
  Runtime.sum Runtime.Undefined = JS.Throw JS.TypeError /\
  Runtime.sum (Runtime.Value [Runtime.Number (JSNumber.Finite 1); Runtime.BigInt 2])
  = JS.Throw JS.TypeError /\
  (forall toUppercase : N -> list N,
      Runtime.capitalize toUppercase Runtime.Undefined = JS.Throw JS.TypeError) /\
  Runtime.reverse Runtime.Null = JS.Throw JS.TypeError /\
  Runtime.countWords Runtime.Undefined = JS.Throw JS.TypeError.
Proof. repeat split; reflexivity. Qed.

(** * Further properties of the code *)

(** ** numberUtils *)

Section ParityFacts.
Import JS numberUtils.
Local Open Scope Z_scope.

Lemma isEven_even (n : Z) : isEven n = Z.even n.
Proof.
  apply eq_iff_eq_true.
  rewrite isEven_true_iff, rem_2_zero_iff, Z.even_spec.
  split.
  - intro H. exists (n / 2). pose proof (Z.div_mod n 2). lia.
  - intros [k ->]. rewrite Z.mul_comm. apply Z.mod_mul. lia.
Qed.

Lemma isOdd_odd (n : Z) : isOdd n = Z.odd n.
Proof.
  unfold isOdd, strict_neq. fold (isEven n).
  rewrite isEven_even. apply Z.negb_even.
Qed.

Lemma fold_add_odd (nums : list Z) (acc : Z) :
  Z.odd (fold_left Z.add nums acc)
  = xorb (Z.odd acc) (Nat.odd (List.length (JSArray.filter isOdd nums))).
Proof.
  revert acc. induction nums as [|x nums IH]; intro acc; simpl.
  - destruct (Z.odd acc); reflexivity.
  - rewrite IH, Z.odd_add, isOdd_odd.
    destruct (Z.odd x); simpl.
    + rewrite Nat.odd_succ, <- Nat.negb_odd.
      destruct (Z.odd acc), (Nat.odd _); reflexivity.
    + destruct (Z.odd acc); reflexivity.
Qed.

Lemma fold_left_monoid (A : Type) (f : A -> A -> A) (e : A)
      (f_assoc : forall a b c, f (f a b) c = f a (f b c))
      (e_left : forall a, f e a = a)
      (e_right : forall a, f a e = a)
      (l : list A) (acc : A) :
  fold_left f l acc = f acc (fold_left f l e).
Proof.
  revert acc. induction l as [|x l IH]; intro acc; simpl.
  - symmetry. apply e_right.
  - rewrite (IH (f acc x)), (IH (f e x)), e_left. apply f_assoc.
Qed.

Lemma fold_left_assoc_comm_perm (A : Type) (f : A -> A -> A)
      (f_assoc : forall a b c, f (f a b) c = f a (f b c))
      (f_comm : forall a b, f a b = f b a)
      (l l' : list A) :
  Permutation l l' -> forall acc, fold_left f l acc = fold_left f l' acc.
Proof.
  induction 1 as [|x l l' _ IH|x y l|l l' l'' _ IH1 _ IH2]; intro acc; simpl.
  - reflexivity.
  - apply IH.
  - f_equal. rewrite !f_assoc. f_equal. apply f_comm.
  - rewrite IH1. apply IH2.
Qed.

End ParityFacts.

(** X1.  The parity tests do not see the sign: an integer and its opposite
    are even together and odd together, the remainder of the negative one
    being negative or not. *)
Theorem parity_opp :
  forall n : Z,
    numberUtils.isEven (- n) = numberUtils.isEven n /\
    numberUtils.isOdd (- n) = numberUtils.isOdd n.
Proof.
  intro n. rewrite !isEven_even, !isOdd_odd, Z.even_opp, Z.odd_opp.
  split; reflexivity.
Qed.

Section DoubleFacts.
Import JSNumber.
Local Open Scope Z_scope.

Lemma round_exact (x : Z) : Z.abs x <= 2 ^ 53 -> round_to_double x = x.
Proof.
  intro H. unfold round_to_double.
  destruct (Z.abs x <? 2 ^ 53) eqn:E; [reflexivity|].
  apply Z.ltb_ge in E.
  change (2 ^ 53) with 9007199254740992 in *.
  assert (Hx : x = 9007199254740992 \/ x = - 9007199254740992) by lia.
  destruct Hx as [-> | ->]; vm_compute; reflexivity.
Qed.

Lemma of_exact_safe (x : Z) : isSafeInteger x = true -> of_exact x = Finite x.
Proof.
  unfold isSafeInteger, MAX_SAFE_INTEGER. intro H. apply Z.leb_le in H.
  unfold of_exact. rewrite round_exact by lia.
  replace (2 ^ 1024 <=? Z.abs x) with false; [reflexivity|].
  symmetry. apply Z.leb_gt.
  assert (2 ^ 53 < 2 ^ 1024) by (apply Z.pow_lt_mono_r; lia).
  lia.
Qed.

Lemma add_safe (x y : Z) :
  isSafeInteger (x + y) = true -> add (Finite x) (Finite y) = Finite (x + y).
Proof. apply of_exact_safe. Qed.

Lemma mul_safe (x y : Z) :
  isSafeInteger (x * y) = true -> mul (Finite x) (Finite y) = Finite (x * y).
Proof. apply of_exact_safe. Qed.

Lemma succ_pred_exact (n : Z) :
  isSafeInteger n = true ->
  of_exact (n + 1) = Finite (n + 1) /\ of_exact (n - 1) = Finite (n - 1).
Proof.
  unfold isSafeInteger, MAX_SAFE_INTEGER. intro H. apply Z.leb_le in H.
  assert (B : 2 ^ 53 < 2 ^ 1024) by (apply Z.pow_lt_mono_r; lia).
  unfold of_exact. rewrite !round_exact by lia.
  replace (2 ^ 1024 <=? Z.abs (n + 1)) with false by (symmetry; apply Z.leb_gt; lia).
  replace (2 ^ 1024 <=? Z.abs (n - 1)) with false by (symmetry; apply Z.leb_gt; lia).
  split; reflexivity.
Qed.

Lemma sumNumber_safe_from (nums : list Z) (acc : Z) :
  SafeIntegers.sums_safe acc nums = true ->
  fold_left (fun a v => add a v) (map Finite nums) (Finite acc)
  = Finite (fold_left Z.add nums acc).
Proof.
  revert acc. induction nums as [|x nums IH]; intro acc; [reflexivity|].
  intro H. simpl in H. rewrite !andb_true_iff in H. destruct H as [[_ Hsum] Hrest].
  cbn [map fold_left]. rewrite add_safe by exact Hsum. apply IH, Hrest.
Qed.

Lemma sumNumber_safe (nums : list Z) :
  SafeIntegers.sums_safe 0 nums = true ->
  numberUtils.sumNumber (map Finite nums)
  = JS.Normal (Finite (fold_left Z.add nums 0)) /\
  numberUtils.sumZ nums = JS.Normal (fold_left Z.add nums 0).
Proof.
  intro H.
  unfold numberUtils.sumNumber, numberUtils.sumZ, numberUtils.sum, JSArray.reduce.
  rewrite !reduce_loop_fold_left, (sumNumber_safe_from nums 0 H).
  split; reflexivity.
Qed.

End DoubleFacts.

(** Above the safe integers the additions and multiplications of the
    language round: [2^53 + 1] is [2^53], the sum of [2^53] and [1] is
    [2^53], the square of [2^27 + 1] is an even Number. *)
Remark arithmetic_rounds_above_safe_integers :
  JSNumber.add (JSNumber.Finite (2 ^ 53)) (JSNumber.Finite 1) = JSNumber.Finite (2 ^ 53) /\
  numberUtils.sumNumber [JSNumber.Finite (2 ^ 53); JSNumber.Finite 1]
  = JS.Normal (JSNumber.Finite (2 ^ 53)) /\
  numberUtils.sumNumber [JSNumber.Finite (2 ^ 53 - 1); JSNumber.Finite 2]
  = JS.Normal (JSNumber.Finite (2 ^ 53)) /\
  JSNumber.mul (JSNumber.Finite (2 ^ 27 + 1)) (JSNumber.Finite (2 ^ 27 + 1))
  = JSNumber.Finite 18014398777917440.
Proof. repeat split; vm_compute; reflexivity. Qed.

(** X2.  Going from a safe integer to the next integer, up or down, swaps
    the two tests: [n + 1] and [n - 1], as the language computes them, are
    the exact successor and predecessor, of the other parity. *)
Theorem parity_succ (n : Z) (safe : JSNumber.isSafeInteger n = true) :
  JSNumber.add (JSNumber.Finite n) (JSNumber.Finite 1) = JSNumber.Finite (n + 1) /\
  JSNumber.sub (JSNumber.Finite n) (JSNumber.Finite 1) = JSNumber.Finite (n - 1) /\
  numberUtils.isEven (n + 1) = numberUtils.isOdd n /\
  numberUtils.isOdd (n + 1) = numberUtils.isEven n /\
  numberUtils.isEven (n - 1) = numberUtils.isOdd n /\
  numberUtils.isOdd (n - 1) = numberUtils.isEven n.
Proof.
  destruct (succ_pred_exact n safe) as [Hup Hdown].
  split; [exact Hup|]. split; [exact Hdown|].
  rewrite !isEven_even, !isOdd_odd.
  change (n + 1)%Z with (Z.succ n). change (n - 1)%Z with (Z.pred n).
  rewrite Z.even_succ, Z.odd_succ, Z.even_pred, Z.odd_pred.
  repeat split; reflexivity.
Qed.

Lemma parity_succ_witness :
  JSNumber.add (JSNumber.Finite (2 ^ 53 - 1)) (JSNumber.Finite 1)
  = JSNumber.Finite (2 ^ 53 - 1 + 1) /\
  numberUtils.isEven (2 ^ 53 - 1 + 1) = numberUtils.isOdd (2 ^ 53 - 1).
Proof.
  destruct (@parity_succ (2 ^ 53 - 1)%Z) as (Hadd & _ & Heven & _).
  - reflexivity.
  - split; [exact Hadd|exact Heven].
Defined.

(** X3.  Parity of sums and products of safe integers, the sum or the
    product being a safe integer too, so that the language computes it
    exactly: a sum is even when its two terms have the same parity, a
    product is even when one factor is, and is odd when both factors are. *)
Theorem parity_add_mul (m n : Z)
        (safe_m : JSNumber.isSafeInteger m = true)
        (safe_n : JSNumber.isSafeInteger n = true)
        (safe_sum : JSNumber.isSafeInteger (m + n) = true)
        (safe_product : JSNumber.isSafeInteger (m * n) = true) :
  JSNumber.add (JSNumber.Finite m) (JSNumber.Finite n) = JSNumber.Finite (m + n) /\
  JSNumber.mul (JSNumber.Finite m) (JSNumber.Finite n) = JSNumber.Finite (m * n) /\
  numberUtils.isEven (m + n)
  = Bool.eqb (numberUtils.isEven m) (numberUtils.isEven n) /\
  numberUtils.isEven (m * n) = numberUtils.isEven m || numberUtils.isEven n /\
  numberUtils.isOdd (m * n) = numberUtils.isOdd m && numberUtils.isOdd n.
Proof.
  split; [apply add_safe, safe_sum|]. split; [apply mul_safe, safe_product|].
  rewrite !isEven_even, !isOdd_odd, Z.even_add, Z.even_mul, Z.odd_mul.
  repeat split; reflexivity.
Qed.

Lemma parity_add_mul_witness :
  JSNumber.mul (JSNumber.Finite 94906265) (JSNumber.Finite 94906263)
  = JSNumber.Finite (94906265 * 94906263) /\
  numberUtils.isOdd (94906265 * 94906263)
  = numberUtils.isOdd 94906265 && numberUtils.isOdd 94906263.
Proof.
  destruct (@parity_add_mul 94906265%Z 94906263%Z) as (_ & Hmul & _ & _ & Hodd);
    try reflexivity.
  split; [exact Hmul|exact Hodd].
Defined.

(** X4.  On a negative odd integer the remainder by 2 is [-1], not [1]:
    [isOdd] answers true there because it compares the remainder with 0,
    where a comparison with 1 would answer false. *)
Theorem isOdd_negative_remainder (n : Z)
        (negative : (n < 0)%Z) (odd : numberUtils.isOdd n = true) :
  JS.rem n 2 = (-1)%Z /\ JS.strict_eq (JS.rem n 2) 1 = false.
Proof.
  assert (H : JS.rem n 2 = (-1)%Z).
  { apply isOdd_true_iff in odd. unfold JS.rem in *.
    pose proof (Z.rem_opp_l n 2). pose proof (Z.rem_bound_pos (- n) 2). lia. }
  rewrite H. split; reflexivity.
Qed.

Lemma isOdd_negative_remainder_witness :
  JS.rem (-7) 2 = (-1)%Z /\ JS.strict_eq (JS.rem (-7) 2) 1 = false.
Proof.
  apply (@isOdd_negative_remainder (-7)%Z); [lia|reflexivity].
Defined.

(** X5.  The remainder the tests look at is [-1], [0] or [1], and [isOdd]
    holds exactly when it is [1] or [-1]. *)
Theorem isOdd_remainders :
  forall n : Z,
    (JS.rem n 2 = (-1)%Z \/ JS.rem n 2 = 0%Z \/ JS.rem n 2 = 1%Z) /\
    (numberUtils.isOdd n = true <-> JS.rem n 2 = 1%Z \/ JS.rem n 2 = (-1)%Z).
Proof.
  intro n.
  assert (B : (-2 < JS.rem n 2 < 2)%Z).
  { unfold JS.rem. pose proof (Z.rem_bound_abs n 2). lia. }
  split; [lia|]. rewrite isOdd_true_iff. lia.
Qed.

(** X6.  Under exact arithmetic (the addition is associative and 0 is
    neutral on both sides) the [sum] of two sequences put end to end is the
    sum of their two sums. *)
Theorem sum_app (number : Type) (add : number -> number -> number) (zero : number)
        (add_assoc : forall a b c, add (add a b) c = add a (add b c))
        (zero_left : forall a, add zero a = a)
        (zero_right : forall a, add a zero = a)
        (xs ys : list number) :
  exists x y,
    numberUtils.sum add zero xs = JS.Normal x /\
    numberUtils.sum add zero ys = JS.Normal y /\
    numberUtils.sum add zero (xs ++ ys) = JS.Normal (add x y).
Proof.
  exists (fold_left add xs zero), (fold_left add ys zero).
  unfold numberUtils.sum, JSArray.reduce. rewrite !reduce_loop_fold_left.
  repeat split.
  rewrite fold_left_app. f_equal.
  apply fold_left_monoid; assumption.
Qed.

Lemma sum_app_witness :
  exists x y,
    numberUtils.sumZ [1; 2]%Z = JS.Normal x /\
    numberUtils.sumZ [3; 4]%Z = JS.Normal y /\
    numberUtils.sumZ ([1; 2] ++ [3; 4])%Z = JS.Normal (x + y)%Z.
Proof.
  unfold numberUtils.sumZ.
  apply (@sum_app Z Z.add 0%Z); intros; lia.
Defined.

(** X7.  Under exact arithmetic (the addition is associative and
    commutative) [sum] does not depend on the order of the elements: two
    sequences that are permutations of each other have the same sum. *)
Theorem sum_permutation (number : Type) (add : number -> number -> number)
        (zero : number)
        (add_assoc : forall a b c, add (add a b) c = add a (add b c))
        (add_comm : forall a b, add a b = add b a)
        (xs ys : list number) (perm : Permutation xs ys) :
  numberUtils.sum add zero xs = numberUtils.sum add zero ys.
Proof.
  unfold numberUtils.sum, JSArray.reduce. rewrite !reduce_loop_fold_left.
  f_equal. apply fold_left_assoc_comm_perm; assumption.
Qed.

Lemma sum_permutation_witness :
  numberUtils.sumZ [1; 2; 3]%Z = numberUtils.sumZ [2; 1; 3]%Z.
Proof.
  unfold numberUtils.sumZ.
  apply (@sum_permutation Z Z.add 0%Z); [intros; lia | intros; lia | apply perm_swap].
Defined.

(** X8.  Whatever the addition is, exact or rounded, appending one element
    to a sequence adds it last: the new sum is the old sum plus the
    element. *)
Theorem sum_snoc :
  forall (number : Type) (add : number -> number -> number) (zero : number)
         (nums : list number) (last : number),
  exists total,
    numberUtils.sum add zero nums = JS.Normal total /\
    numberUtils.sum add zero (nums ++ [last]) = JS.Normal (add total last).
Proof.
  intros. exists (fold_left add nums zero).
  unfold numberUtils.sum, JSArray.reduce. rewrite !reduce_loop_fold_left.
  split; [reflexivity|]. rewrite fold_left_app. reflexivity.
Qed.

(** X9.  The three operations together: when the elements and the partial
    sums are safe integers, so that every addition of [sum] is exact, the
    sum of a sequence of integers is odd exactly when the sequence has an
    odd number of odd elements. *)
Theorem sum_parity (nums : list Z)
        (safe : SafeIntegers.sums_safe 0 nums = true) :
  exists total,
    numberUtils.sumNumber (map JSNumber.Finite nums)
    = JS.Normal (JSNumber.Finite total) /\
    numberUtils.sumZ nums = JS.Normal total /\
    numberUtils.isOdd total
    = numberUtils.isOdd (JSArray.length (JSArray.filter numberUtils.isOdd nums)) /\
    numberUtils.isEven total
    = numberUtils.isEven (JSArray.length (JSArray.filter numberUtils.isOdd nums)).
Proof.
  exists (fold_left Z.add nums 0%Z).
  destruct (sumNumber_safe nums safe) as [Hnumber Hexact].
  split; [exact Hnumber|]. split; [exact Hexact|].
  unfold JSArray.length.
  assert (H : Z.odd (fold_left Z.add nums 0%Z)
              = Z.odd (Z.of_nat (List.length (JSArray.filter numberUtils.isOdd nums)))).
  { rewrite fold_add_odd. simpl xorb.
    generalize (List.length (JSArray.filter numberUtils.isOdd nums)). intro k.
    induction k as [|k IH]; [reflexivity|].
    rewrite Nat2Z.inj_succ, Z.odd_succ, Nat.odd_succ, <- Z.negb_odd, <- Nat.negb_odd.
    rewrite IH. reflexivity. }
  split.
  - rewrite !isOdd_odd. exact H.
  - rewrite !isEven_even, <- !Z.negb_odd, H. reflexivity.
Qed.

Lemma sum_parity_witness :
  exists total,
    numberUtils.sumNumber (map JSNumber.Finite [3; 4; 5; 9007199254740979]%Z)
    = JS.Normal (JSNumber.Finite total) /\
    numberUtils.sumZ [3; 4; 5; 9007199254740979]%Z = JS.Normal total /\
    numberUtils.isOdd total
    = numberUtils.isOdd
        (JSArray.length
           (JSArray.filter numberUtils.isOdd [3; 4; 5; 9007199254740979]%Z)) /\
    numberUtils.isEven total
    = numberUtils.isEven
        (JSArray.length
           (JSArray.filter numberUtils.isOdd [3; 4; 5; 9007199254740979]%Z)).
Proof.
  apply (@sum_parity [3; 4; 5; 9007199254740979]%Z). reflexivity.
Defined.

(** ** stringUtils: capitalize and the functions it calls *)

Section Utf16Facts.

Lemma encode_unit (c : N) : (c < 65536)%N -> UTF16EncodeCodePoint c = [c].
Proof.
  intro H. unfold UTF16EncodeCodePoint.
  replace (c <=? 65535)%N with true; [reflexivity|].
  symmetry. apply N.leb_le. lia.
Qed.

Lemma encode_pair (cp : N) :
  (65535 < cp)%N ->
  UTF16EncodeCodePoint cp
  = [((cp - 65536) / 1024 + 55296)%N; ((cp - 65536) mod 1024 + 56320)%N].
Proof.
  intro H. unfold UTF16EncodeCodePoint.
  replace (cp <=? 65535)%N with false; [reflexivity|].
  symmetry. apply N.leb_gt. lia.
Qed.

Lemma leading_iff (c : N) : is_leading_surrogate c = true <-> (55296 <= c <= 56319)%N.
Proof. unfold is_leading_surrogate. rewrite andb_true_iff, !N.leb_le. tauto. Qed.

Lemma trailing_iff (c : N) : is_trailing_surrogate c = true <-> (56320 <= c <= 57343)%N.
Proof. unfold is_trailing_surrogate. rewrite andb_true_iff, !N.leb_le. tauto. Qed.

Lemma decode_pair (lead trail : N) (rest : jsstring) :
  is_leading_surrogate lead = true -> is_trailing_surrogate trail = true ->
  StringToCodePoints (lead :: trail :: rest)
  = UTF16SurrogatePairToCodePoint lead trail :: StringToCodePoints rest.
Proof. intros H1 H2. simpl. rewrite H1, H2. reflexivity. Qed.

Lemma decode_single (c : N) (rest : jsstring) :
  is_leading_surrogate c && ToBoolean rest
  && match rest with [] => false | d :: _ => is_trailing_surrogate d end = false ->
  StringToCodePoints (c :: rest) = c :: StringToCodePoints rest.
Proof.
  destruct rest as [|d rest]; [reflexivity|].
  intro H. simpl in H. rewrite andb_true_r in H.
  change (StringToCodePoints (c :: d :: rest))
    with (if is_leading_surrogate c && is_trailing_surrogate d
          then UTF16SurrogatePairToCodePoint c d :: StringToCodePoints rest
          else c :: StringToCodePoints (d :: rest)).
  rewrite H. reflexivity.
Qed.

Lemma pair_surrogates (cp : N) :
  (65535 < cp <= 1114111)%N ->
  is_leading_surrogate ((cp - 65536) / 1024 + 55296) = true /\
  is_trailing_surrogate ((cp - 65536) mod 1024 + 56320) = true /\
  UTF16SurrogatePairToCodePoint ((cp - 65536) / 1024 + 55296)
                                ((cp - 65536) mod 1024 + 56320) = cp.
Proof.
  intro H.
  pose proof (N.mod_lt (cp - 65536) 1024 ltac:(lia)) as Hm.
  pose proof (N.div_mod (cp - 65536) 1024 ltac:(lia)) as Hd.
  assert (Hq : ((cp - 65536) / 1024 < 1024)%N).
  { apply N.Div0.div_lt_upper_bound. lia. }
  rewrite leading_iff, trailing_iff. unfold UTF16SurrogatePairToCodePoint.
  revert Hm Hd Hq.
  generalize ((cp - 65536) / 1024)%N, ((cp - 65536) mod 1024)%N.
  intros q m Hm Hd Hq.
  repeat split; try lia.
Qed.

Lemma encode_well_formed (cp : N) :
  (cp <= 1114111)%N -> well_formed (UTF16EncodeCodePoint cp) = true.
Proof.
  intro H. destruct (N.le_gt_cases cp 65535) as [Hs|Hl].
  - rewrite encode_unit by lia. simpl. unfold is_code_unit.
    rewrite andb_true_r. apply N.ltb_lt. lia.
  - rewrite encode_pair by lia.
    destruct (@pair_surrogates cp ltac:(lia)) as (H1 & H2 & _).
    apply leading_iff in H1. apply trailing_iff in H2.
    simpl. unfold is_code_unit. rewrite andb_true_r.
    apply andb_true_iff. split; apply N.ltb_lt; lia.
Qed.

Lemma well_formed_app (s t : jsstring) :
  well_formed (s ++ t) = well_formed s && well_formed t.
Proof. unfold well_formed. apply forallb_app. Qed.

End Utf16Facts.

(** X10.  The two pieces [capitalize] cuts a string into, [charAt(0)] and
    [slice(1)], lose nothing: put end to end they are the string, the empty
    string included. *)
Theorem charAt_slice_decompose :
  forall str : jsstring, charAt str 0 ++ slice str 1 = str.
Proof.
  intros [|c rest]; [reflexivity|].
  rewrite charAt_0_cons, slice_1_cons. reflexivity.
Qed.

(** X11.  [capitalize] touches the first unit only: what is appended to a
    string that is not empty comes out as it went in. *)
Theorem capitalize_app (toUppercase : N -> list N) (str tail : jsstring)
        (not_empty : str <> []) :
  stringUtils.capitalize toUppercase (str ++ tail)
  = stringUtils.capitalize toUppercase str ++ tail.
Proof.
  destruct str as [|c rest]; [contradiction|].
  rewrite <- app_comm_cons, !capitalize_cons, app_assoc. reflexivity.
Qed.

Lemma capitalize_app_witness :
  stringUtils.capitalize latin1_toUppercase (lit "hello" ++ lit " world")
  = stringUtils.capitalize latin1_toUppercase (lit "hello") ++ lit " world".
Proof.
  apply (@capitalize_app latin1_toUppercase (lit "hello") (lit " world")).
  discriminate.
Defined.

(** X12.  [capitalize] leaves a string alone when its first unit has no
    other upper case (a capital letter, a digit, a space): the table maps
    the unit to itself. *)
Theorem capitalize_fixed_head (toUppercase : N -> list N)
        (c : code_unit) (rest : jsstring)
        (unit : (c < 65536)%N) (fixed : toUppercase c = [c]) :
  stringUtils.capitalize toUppercase (c :: rest) = c :: rest.
Proof.
  rewrite capitalize_cons, toUpperCase_unit, fixed.
  unfold CodePointsToString. simpl. rewrite encode_unit by assumption.
  reflexivity.
Qed.

Lemma capitalize_fixed_head_witness :
  stringUtils.capitalize latin1_toUppercase (lit "Hello") = lit "Hello".
Proof.
  apply (@capitalize_fixed_head latin1_toUppercase 72%N (lit "ello"));
    [reflexivity | reflexivity].
Defined.

(** X13.  With a table that maps the Basic Latin small letters to their
    capitals, [capitalize] on a string that starts with one of them replaces
    it by the unit 32 below and keeps the rest. *)
Theorem capitalize_basic_latin (toUppercase : N -> list N)
        (basic_latin : maps_basic_latin toUppercase)
        (c : code_unit) (rest : jsstring)
        (small : (97 <= c <= 122)%N) :
  stringUtils.capitalize toUppercase (c :: rest) = (c - 32)%N :: rest.
Proof.
  rewrite capitalize_cons, toUpperCase_unit, (basic_latin c small).
  unfold CodePointsToString. simpl. rewrite encode_unit by lia.
  reflexivity.
Qed.

Lemma capitalize_basic_latin_witness :
  stringUtils.capitalize latin1_toUppercase (lit "world") = lit "World".
Proof.
  apply (@capitalize_basic_latin latin1_toUppercase latin1_maps_basic_latin
           119%N (lit "orld")).
  lia.
Defined.

(** X14.  [capitalize] returns a string: when the table yields code points,
    every unit of the result of a well-formed string is a 16-bit unit. *)
Theorem capitalize_well_formed (toUppercase : N -> list N)
        (code_points : CaseTable.yields_code_points toUppercase)
        (str : jsstring) (wf : well_formed str = true) :
  well_formed (stringUtils.capitalize toUppercase str) = true.
Proof.
  destruct str as [|c rest]; [reflexivity|].
  simpl in wf. apply andb_true_iff in wf. destruct wf as [Hc Hrest].
  apply N.ltb_lt in Hc.
  rewrite capitalize_cons, toUpperCase_unit, well_formed_app.
  apply andb_true_iff. split; [|exact Hrest].
  unfold CodePointsToString.
  assert (bound : forall d, In d (toUppercase c) -> (d <= 1114111)%N).
  { intro d. apply code_points. lia. }
  induction (toUppercase c) as [|d l IH]; [reflexivity|].
  simpl flat_map. rewrite well_formed_app. apply andb_true_iff. split.
  - apply encode_well_formed. apply bound. left. reflexivity.
  - apply IH. intros d' Hd'. apply bound. right. exact Hd'.
Qed.


Lemma latin1_yields_code_points : CaseTable.yields_code_points latin1_toUppercase.
Proof.
  intros c d Hc. unfold latin1_toUppercase.
  destruct ((97 <=? c)%N && (c <=? 122)%N) eqn:E1.
  { apply andb_true_iff in E1. rewrite !N.leb_le in E1.
    intros [<-|[]]. lia. }
  destruct (c =? 181)%N; [intros [<-|[]]; lia|].
  destruct (c =? 223)%N; [intros [<-|[<-|[]]]; lia|].
  destruct (c =? 255)%N; [intros [<-|[]]; lia|].
  destruct ((224 <=? c)%N && (c <=? 254)%N && negb (c =? 247)%N) eqn:E5.
  { rewrite !andb_true_iff, !N.leb_le in E5. intros [<-|[]]. lia. }
  intros [<-|[]]. exact Hc.
Qed.

Lemma capitalize_well_formed_witness :
  well_formed (stringUtils.capitalize latin1_toUppercase [223%N; 97%N]) = true.
Proof.
  apply (@capitalize_well_formed latin1_toUppercase latin1_yields_code_points).
  reflexivity.
Defined.

Section RoundTripFacts.
Import CaseTable.

Lemma decode_no_surrogate (str : jsstring) :
  forallb (fun c => negb (is_surrogate c)) str = true ->
  StringToCodePoints str = str.
Proof.
  induction str as [|c rest IH]; [reflexivity|].
  simpl forallb. rewrite andb_true_iff, negb_true_iff. intros [Hc Hrest].
  unfold is_surrogate in Hc. apply orb_false_iff in Hc. destruct Hc as [Hc _].
  rewrite decode_single by (rewrite Hc; reflexivity).
  rewrite IH by assumption. reflexivity.
Qed.

Lemma encode_decoded_pair (lead trail : N) :
  is_leading_surrogate lead = true -> is_trailing_surrogate trail = true ->
  UTF16EncodeCodePoint (UTF16SurrogatePairToCodePoint lead trail) = [lead; trail].
Proof.
  rewrite leading_iff, trailing_iff. intros Hl Ht.
  unfold UTF16SurrogatePairToCodePoint.
  rewrite encode_pair by lia.
  replace ((lead - 55296) * 1024 + (trail - 56320) + 65536 - 65536)%N
    with ((trail - 56320) + (lead - 55296) * 1024)%N by lia.
  rewrite N.div_add by lia. rewrite N.Div0.mod_add.
  rewrite N.div_small by lia. rewrite N.mod_small by lia.
  f_equal; [lia|]. f_equal. lia.
Qed.

Lemma CodePointsToString_cons (cp : N) (text : list N) :
  CodePointsToString (cp :: text) = UTF16EncodeCodePoint cp ++ CodePointsToString text.
Proof. reflexivity. Qed.

Lemma encode_decode (n : nat) :
  forall str : jsstring,
    (List.length str <= n)%nat -> well_formed str = true ->
    CodePointsToString (StringToCodePoints str) = str.
Proof.
  induction n as [|n IH]; intros str Hlen Hwf.
  - destruct str; [reflexivity|simpl in Hlen; lia].
  - destruct str as [|c [|d rest]]; [reflexivity| |].
    + simpl in Hwf. rewrite andb_true_r in Hwf. apply N.ltb_lt in Hwf.
      simpl. rewrite encode_unit by assumption. reflexivity.
    + simpl in Hlen. simpl in Hwf.
      apply andb_true_iff in Hwf. destruct Hwf as [Hc Hwf].
      destruct (is_leading_surrogate c && is_trailing_surrogate d) eqn:E.
      * apply andb_true_iff in E. destruct E as [E1 E2].
        apply andb_true_iff in Hwf. destruct Hwf as [_ Hwf].
        rewrite decode_pair by assumption.
        rewrite CodePointsToString_cons.
        rewrite encode_decoded_pair by assumption.
        rewrite IH; [reflexivity|lia|exact Hwf].
      * rewrite decode_single by (simpl; rewrite andb_true_r; exact E).
        rewrite CodePointsToString_cons.
        rewrite encode_unit by (apply N.ltb_lt; exact Hc).
        rewrite IH; [reflexivity|simpl; lia|exact Hwf].
Qed.

End RoundTripFacts.

(** X15.  Encoding then decoding: a list of scalar values written in UTF-16
    is a well-formed string, and reading that string back by code points
    gives the list. *)
Theorem utf16_encode_decode (text : list N)
        (scalar : forallb CaseTable.is_scalar_value text = true) :
  StringToCodePoints (CodePointsToString text) = text /\
  well_formed (CodePointsToString text) = true.
Proof.
  induction text as [|cp text IH]; [split; reflexivity|].
  simpl in scalar. apply andb_true_iff in scalar. destruct scalar as [Hcp Htext].
  destruct (IH Htext) as [IH1 IH2].
  unfold CaseTable.is_scalar_value, CaseTable.is_surrogate in Hcp.
  rewrite andb_true_iff, negb_true_iff, orb_false_iff, N.leb_le in Hcp.
  destruct Hcp as (Hmax & Hlead & Htrail).
  rewrite CodePointsToString_cons.
  rewrite well_formed_app, IH2, andb_true_r.
  split; [|apply encode_well_formed; exact Hmax].
  destruct (N.le_gt_cases cp 65535) as [Hs|Hl].
  - rewrite encode_unit by lia. simpl app.
    rewrite decode_single by (rewrite Hlead; reflexivity).
    rewrite IH1. reflexivity.
  - rewrite encode_pair by lia. simpl app.
    destruct (@pair_surrogates cp ltac:(lia)) as (H1 & H2 & H3).
    rewrite decode_pair by assumption. rewrite H3, IH1. reflexivity.
Qed.

Lemma utf16_encode_decode_witness :
  StringToCodePoints (CodePointsToString [104%N; 66600%N; 105%N])
  = [104%N; 66600%N; 105%N] /\
  well_formed (CodePointsToString [104%N; 66600%N; 105%N]) = true.
Proof.
  apply (@utf16_encode_decode [104%N; 66600%N; 105%N]). reflexivity.
Defined.

(** X16.  [toUpperCase] changes a string through the table only: a
    well-formed string whose code points the table maps to themselves comes
    out unchanged, surrogate pairs and lone surrogates included. *)
Theorem toUpperCase_fixed (toUppercase : N -> list N) (str : jsstring)
        (wf : well_formed str = true)
        (fixed : forall cp, In cp (StringToCodePoints str) -> toUppercase cp = [cp]) :
  toUpperCase toUppercase str = str.
Proof.
  unfold toUpperCase.
  assert (H : flat_map toUppercase (StringToCodePoints str) = StringToCodePoints str).
  { induction (StringToCodePoints str) as [|cp l IH]; [reflexivity|].
    simpl. rewrite (fixed cp) by (left; reflexivity).
    rewrite IH; [reflexivity|]. intros cp' H'. apply fixed. right. exact H'. }
  rewrite H. apply (@encode_decode (List.length str)); [lia|exact wf].
Qed.

Lemma toUpperCase_fixed_witness :
  toUpperCase latin1_toUppercase [72%N; 55297%N; 56360%N; 33%N]
  = [72%N; 55297%N; 56360%N; 33%N].
Proof.
  apply (@toUpperCase_fixed latin1_toUppercase [72%N; 55297%N; 56360%N; 33%N]).
  - reflexivity.
  - simpl. intros cp [<-|[<-|[<-|[]]]]; reflexivity.
Defined.

(** ** stringUtils: reverse *)

Lemma forallb_rev (A : Type) (f : A -> bool) (l : list A) :
  forallb f (rev l) = forallb f l.
Proof.
  induction l as [|x l IH]; [reflexivity|].
  simpl. rewrite forallb_app, IH. simpl. rewrite andb_true_r. apply andb_comm.
Qed.

(** X17.  [reverse] of two strings put end to end is the two reversed
    strings in the other order. *)
Theorem reverse_app :
  forall s t : jsstring,
    stringUtils.reverse (s ++ t) = stringUtils.reverse t ++ stringUtils.reverse s.
Proof. intros s t. rewrite !reverse_rev. apply rev_app_distr. Qed.

(** X18.  [reverse] returns a string: the result is made of 16-bit units
    exactly when the argument is. *)
Theorem reverse_well_formed :
  forall str : jsstring, well_formed (stringUtils.reverse str) = well_formed str.
Proof. intro str. rewrite reverse_rev. apply forallb_rev. Qed.

(** X19.  On a string without surrogates, each unit being a code point,
    [reverse] reverses the code points. *)
Theorem reverse_code_points (str : jsstring)
        (plain : forallb (fun c => negb (CaseTable.is_surrogate c)) str = true) :
  StringToCodePoints (stringUtils.reverse str) = rev (StringToCodePoints str).
Proof.
  rewrite reverse_rev.
  rewrite !decode_no_surrogate; [reflexivity|exact plain|].
  rewrite forallb_rev. exact plain.
Qed.

Lemma reverse_code_points_witness :
  StringToCodePoints (stringUtils.reverse (lit "hello"))
  = rev (StringToCodePoints (lit "hello")).
Proof.
  apply (@reverse_code_points (lit "hello")). reflexivity.
Defined.

Section SurrogateFacts.

Lemma flat_map_rev (A B : Type) (f : A -> list B) (l : list A) :
  rev (flat_map f l) = flat_map (fun c => rev (f c)) (rev l).
Proof.
  induction l as [|x l IH]; [reflexivity|].
  simpl. rewrite rev_app_distr, IH, flat_map_app. simpl.
  rewrite app_nil_r. reflexivity.
Qed.

Lemma app_same_length (A : Type) (a a' b b' : list A) :
  List.length a = List.length a' -> a ++ b = a' ++ b' -> a = a' /\ b = b'.
Proof.
  revert a'. induction a as [|x a IH]; intros [|x' a'] Hlen H;
    try discriminate Hlen.
  - split; [reflexivity|exact H].
  - simpl in Hlen, H. injection H as -> H. injection Hlen as Hlen.
    destruct (IH a' Hlen H) as [-> ->]. split; reflexivity.
Qed.

Lemma flat_map_blocks (A B : Type) (g h : A -> list B) (l : list A) :
  (forall c, List.length (g c) = List.length (h c)) ->
  flat_map g l = flat_map h l ->
  forall c, In c l -> g c = h c.
Proof.
  intros Hlen. induction l as [|x l IH]; intros H c Hc; [destruct Hc|].
  simpl in H. destruct (@app_same_length _ _ _ _ _ (Hlen x) H) as [Hx Hl].
  destruct Hc as [<-|Hc]; [exact Hx|apply IH; assumption].
Qed.

Lemma decode_contains_pair (n : nat) :
  forall (before after : jsstring) (lead trail : code_unit),
    (List.length before <= n)%nat ->
    is_leading_surrogate lead = true -> is_trailing_surrogate trail = true ->
    In (UTF16SurrogatePairToCodePoint lead trail)
       (StringToCodePoints (before ++ lead :: trail :: after)).
Proof.
  induction n as [|n IH]; intros before after lead trail Hlen Hl Ht.
  - destruct before; [|simpl in Hlen; lia].
    simpl app. rewrite decode_pair by assumption. left. reflexivity.
  - destruct before as [|a [|b rest]].
    + simpl app. rewrite decode_pair by assumption. left. reflexivity.
    + simpl app.
      assert (E : is_trailing_surrogate lead = false).
      { apply leading_iff in Hl. unfold is_trailing_surrogate.
        apply andb_false_iff. left. apply N.leb_gt. lia. }
      rewrite decode_single by (simpl; rewrite E, !andb_false_r; reflexivity).
      right. rewrite decode_pair by assumption. left. reflexivity.
    + simpl in Hlen.
      destruct (is_leading_surrogate a && is_trailing_surrogate b) eqn:E.
      * apply andb_true_iff in E. destruct E as [Ea Eb].
        change ((a :: b :: rest) ++ lead :: trail :: after)
          with (a :: b :: (rest ++ lead :: trail :: after)).
        rewrite decode_pair by assumption.
        right. apply IH; [lia|assumption|assumption].
      * change ((a :: b :: rest) ++ lead :: trail :: after)
          with (a :: ((b :: rest) ++ lead :: trail :: after)).
        rewrite decode_single by (simpl; rewrite andb_true_r; exact E).
        right. apply IH; [simpl; lia|assumption|assumption].
Qed.

Lemma reversed_code_points_differ (str : jsstring) (lead trail : code_unit) :
  well_formed str = true ->
  is_leading_surrogate lead = true -> is_trailing_surrogate trail = true ->
  In (UTF16SurrogatePairToCodePoint lead trail) (StringToCodePoints str) ->
  StringToCodePoints (rev str) <> rev (StringToCodePoints str).
Proof.
  intros Hwf Hl Ht Hin Heq.
  assert (Hwf' : well_formed (rev str) = true).
  { unfold well_formed. rewrite forallb_rev. exact Hwf. }
  pose proof (@encode_decode (List.length str) str (le_n _) Hwf) as Hs.
  pose proof (@encode_decode (List.length (rev str)) (rev str) (le_n _) Hwf') as Hr.
  rewrite Heq in Hr. rewrite <- Hs in Hr at 2.
  unfold CodePointsToString in Hr. rewrite flat_map_rev in Hr.
  assert (Hblock : UTF16EncodeCodePoint (UTF16SurrogatePairToCodePoint lead trail)
                   = rev (UTF16EncodeCodePoint (UTF16SurrogatePairToCodePoint lead trail))).
  { apply (flat_map_blocks UTF16EncodeCodePoint
             (fun c => rev (UTF16EncodeCodePoint c))
             (rev (StringToCodePoints str))).
    - intro c. symmetry. apply length_rev.
    - exact Hr.
    - apply in_rev. rewrite rev_involutive. exact Hin. }
  rewrite encode_decoded_pair in Hblock by assumption.
  simpl in Hblock. injection Hblock as Hsame _.
  apply leading_iff in Hl. apply trailing_iff in Ht. lia.
Qed.

End SurrogateFacts.

(** X20.  [reverse] works on units, not on code points.  A surrogate pair,
    one code point above U+FFFF, comes out with its two units swapped,
    wherever it stands in the string; alone, the swapped units read as two
    lone surrogates; and in any well-formed string that holds a surrogate
    pair, the code points of the reversed string are not the code points of
    the string in reverse order. *)
Theorem reverse_splits_surrogate_pair (before after : jsstring) (lead trail : code_unit)
        (is_lead : is_leading_surrogate lead = true)
        (is_trail : is_trailing_surrogate trail = true)
        (wf : well_formed (before ++ [lead; trail] ++ after) = true) :
  StringToCodePoints [lead; trail] = [UTF16SurrogatePairToCodePoint lead trail] /\
  stringUtils.reverse (before ++ [lead; trail] ++ after)
  = stringUtils.reverse after ++ [trail; lead] ++ stringUtils.reverse before /\
  StringToCodePoints (stringUtils.reverse [lead; trail]) = [trail; lead] /\
  StringToCodePoints (stringUtils.reverse (before ++ [lead; trail] ++ after))
  <> rev (StringToCodePoints (before ++ [lead; trail] ++ after)).
Proof.
  split; [apply (@decode_pair lead trail []); assumption|].
  split.
  { rewrite !reverse_rev, !rev_app_distr. simpl. rewrite <- app_assoc. reflexivity. }
  split.
  { rewrite reverse_rev. simpl rev. simpl app.
    apply trailing_iff in is_trail.
    assert (E : is_leading_surrogate trail = false).
    { unfold is_leading_surrogate. apply andb_false_iff. right. apply N.leb_gt. lia. }
    rewrite decode_single by (rewrite E; reflexivity).
    reflexivity. }
  rewrite reverse_rev.
  apply (@reversed_code_points_differ _ lead trail); try assumption.
  apply (@decode_contains_pair (List.length before)); [lia|assumption|assumption].
Qed.

Lemma reverse_splits_surrogate_pair_witness :
  StringToCodePoints
    (stringUtils.reverse ([55297%N; 56360%N] ++ [55297%N; 56361%N] ++ lit "!"))
  <> rev (StringToCodePoints ([55297%N; 56360%N] ++ [55297%N; 56361%N] ++ lit "!")).
Proof.
  apply (@reverse_splits_surrogate_pair
           [55297%N; 56360%N] (lit "!") 55297%N 56361%N);
    reflexivity.
Defined.

(** ** stringUtils: countWords *)

Section RunFacts.
Import WordRuns Boundary stringUtils.

Lemma countWords_runs (str : jsstring) :
  countWords str = Z.of_nat (List.length (runs_after true str)).
Proof.
  unfold countWords, JSArray.length. rewrite kept_tokens_are_runs. reflexivity.
Qed.

Lemma runs_count_cons (b : bool) (c : code_unit) (rest : jsstring) :
  List.length (runs_after b (c :: rest))
  = ((if negb (class_s c) && b then 1 else 0)
     + List.length (runs_after (class_s c) rest))%nat.
Proof.
  rewrite runs_after_cons, length_app.
  destruct (negb (class_s c) && b); reflexivity.
Qed.

Lemma runs_count_true_false (str : jsstring) :
  List.length (runs_after true str)
  = ((if starts_with_word str then 1 else 0)
     + List.length (runs_after false str))%nat.
Proof.
  destruct str as [|c rest]; [reflexivity|].
  rewrite !runs_count_cons. simpl starts_with_word.
  destruct (class_s c); reflexivity.
Qed.

Lemma ends_in_space_app (b : bool) (s t : jsstring) :
  ends_in_space b (s ++ t) = ends_in_space (ends_in_space b s) t.
Proof.
  revert b. induction s as [|c s IH]; intro b; [reflexivity|apply IH].
Qed.

Lemma runs_count_app (b : bool) (s t : jsstring) :
  List.length (runs_after b (s ++ t))
  = (List.length (runs_after b s)
     + List.length (runs_after (ends_in_space b s) t))%nat.
Proof.
  revert b. induction s as [|c s IH]; intro b; [reflexivity|].
  rewrite <- app_comm_cons, !runs_count_cons, IH. simpl ends_in_space. lia.
Qed.

Lemma runs_count_blank (b : bool) (ws : jsstring) :
  forallb class_s ws = true -> List.length (runs_after b ws) = 0%nat.
Proof.
  revert b. induction ws as [|c ws IH]; intros b H; [reflexivity|].
  simpl in H. apply andb_true_iff in H. destruct H as [Hc Hws].
  rewrite runs_count_cons, Hc, (IH true Hws). reflexivity.
Qed.

Lemma ends_in_space_blank (ws : jsstring) :
  forallb class_s ws = true -> ends_in_space true ws = true.
Proof.
  induction ws as [|c ws IH]; [reflexivity|].
  simpl. intro H. apply andb_true_iff in H. destruct H as [Hc Hws].
  rewrite Hc. apply IH, Hws.
Qed.

Lemma runs_count_bound (str : jsstring) :
  (2 * List.length (runs_after false str) <= List.length str)%nat /\
  (2 * List.length (runs_after true str) <= List.length str + 1)%nat.
Proof.
  induction str as [|c rest [IHf IHt]]; [simpl; lia|].
  rewrite !runs_count_cons. simpl List.length.
  destruct (class_s c); simpl; lia.
Qed.

Lemma ends_in_space_rev (str : jsstring) :
  ends_in_space true (rev str) = negb (starts_with_word str).
Proof.
  destruct str as [|c rest]; [reflexivity|].
  simpl rev. rewrite ends_in_space_app. simpl.
  rewrite negb_involutive. reflexivity.
Qed.

Lemma runs_count_rev (str : jsstring) :
  List.length (runs_after true (rev str)) = List.length (runs_after true str).
Proof.
  induction str as [|c rest IH]; [reflexivity|].
  simpl rev. rewrite runs_count_app, IH, ends_in_space_rev.
  rewrite !runs_count_cons, runs_after_nil. simpl List.length.
  destruct (class_s c); simpl; [lia|].
  rewrite (runs_count_true_false rest).
  destruct (starts_with_word rest); simpl; lia.
Qed.

End RunFacts.

(** X21.  A word takes a unit and two words are a white space apart: twice
    the count is at most the length plus one, and the count is not
    negative. *)
Theorem countWords_bounds :
  forall str : jsstring,
    (0 <= stringUtils.countWords str)%Z /\
    (2 * stringUtils.countWords str <= Z.of_nat (List.length str) + 1)%Z.
Proof.
  intro str. rewrite countWords_runs.
  pose proof (runs_count_bound str) as [_ H]. lia.
Qed.

(** X22.  The words of two strings joined by a white space are the words of
    the one and the words of the other: the counts add up. *)
Theorem countWords_app_space (s t : jsstring) (c : code_unit)
        (space : class_s c = true) :
  stringUtils.countWords (s ++ c :: t)
  = (stringUtils.countWords s + stringUtils.countWords t)%Z.
Proof.
  rewrite !countWords_runs, runs_count_app, runs_count_cons, space.
  simpl. lia.
Qed.

Lemma countWords_app_space_witness :
  stringUtils.countWords (lit "hello big" ++ 32%N :: lit "wide world")
  = (stringUtils.countWords (lit "hello big")
     + stringUtils.countWords (lit "wide world"))%Z.
Proof.
  apply (@countWords_app_space (lit "hello big") (lit "wide world") 32%N).
  reflexivity.
Defined.

(** X23.  Two strings put end to end without a separator: the counts add
    up, less one when the first string ends inside a word and the second
    starts with one, the two words becoming one. *)
Theorem countWords_app :
  forall s t : jsstring,
    stringUtils.countWords (s ++ t)
    = (stringUtils.countWords s + stringUtils.countWords t
       - (if negb (Boundary.ends_in_space true s) && Boundary.starts_with_word t
          then 1 else 0))%Z.
Proof.
  intros s t. rewrite !countWords_runs, runs_count_app.
  rewrite (runs_count_true_false t).
  destruct (Boundary.ends_in_space true s).
  - rewrite (runs_count_true_false t). simpl. lia.
  - destruct (Boundary.starts_with_word t); simpl; lia.
Qed.

(** X24.  White space around a string does not count: padding a string with
    white space on either side leaves its number of words as it is. *)
Theorem countWords_padding (left str right : jsstring)
        (blank_left : forallb class_s left = true)
        (blank_right : forallb class_s right = true) :
  stringUtils.countWords (left ++ str ++ right) = stringUtils.countWords str.
Proof.
  rewrite !countWords_runs, !runs_count_app.
  rewrite (runs_count_blank true left blank_left).
  rewrite (ends_in_space_blank left blank_left).
  rewrite (runs_count_blank _ right blank_right). lia.
Qed.

Lemma countWords_padding_witness :
  stringUtils.countWords (lit "  " ++ lit "hello world" ++ [9%N; 10%N])
  = stringUtils.countWords (lit "hello world").
Proof.
  apply (@countWords_padding (lit "  ") (lit "hello world") [9%N; 10%N]);
    reflexivity.
Defined.

(** X25.  [reverse] and [countWords] together: a string and its reversal
    have the same number of words. *)
Theorem countWords_reverse :
  forall str : jsstring,
    stringUtils.countWords (stringUtils.reverse str) = stringUtils.countWords str.
Proof.
  intro str. rewrite reverse_rev, !countWords_runs, runs_count_rev. reflexivity.
Qed.

Section SplitFacts.
Import WordRuns Boundary stringUtils.

Lemma filter_skip_s (input : jsstring) :
  List.filter (fun c => negb (class_s c)) (skip_s input)
  = List.filter (fun c => negb (class_s c)) input.
Proof.
  induction input as [|c rest IH]; [reflexivity|].
  simpl skip_s. destruct (class_s c) eqn:E; [|reflexivity].
  simpl. rewrite E. exact IH.
Qed.

Lemma split_loop_concat (n : nat) :
  forall T input : jsstring,
    (List.length input <= n)%nat ->
    List.concat (split_loop T input)
    = T ++ List.filter (fun c => negb (class_s c)) input.
Proof.
  induction n as [|n IH]; intros T input Hlen.
  - destruct input; [|simpl in Hlen; lia]. rewrite split_loop_nil. reflexivity.
  - destruct input as [|c rest]; [rewrite split_loop_nil; reflexivity|].
    simpl in Hlen. rewrite split_loop_cons. simpl List.filter.
    destruct (class_s c); simpl.
    + rewrite IH by (pose proof (skip_s_length rest); lia).
      rewrite filter_skip_s. reflexivity.
    + rewrite IH by lia. rewrite <- app_assoc. reflexivity.
Qed.

Lemma split_loop_tokens (n : nat) :
  forall T input : jsstring,
    (List.length input <= n)%nat ->
    forallb (fun c => negb (class_s c)) T = true ->
    Forall (fun token => forallb (fun c => negb (class_s c)) token = true)
           (split_loop T input).
Proof.
  induction n as [|n IH]; intros T input Hlen HT.
  - destruct input; [|simpl in Hlen; lia].
    rewrite split_loop_nil. constructor; [exact HT|constructor].
  - destruct input as [|c rest].
    { rewrite split_loop_nil. constructor; [exact HT|constructor]. }
    simpl in Hlen. rewrite split_loop_cons.
    destruct (class_s c) eqn:E.
    + constructor; [exact HT|].
      apply IH; [pose proof (skip_s_length rest); lia|reflexivity].
    + apply IH; [lia|].
      rewrite forallb_app. apply andb_true_iff.
      split; [exact HT|]. simpl. rewrite E. reflexivity.
Qed.

Lemma skip_s_count (input : jsstring) :
  (1 + List.length (runs_after false (skip_s input))
   + (if ends_in_space false (skip_s input) then 1 else 0)
   = List.length (runs_after true input)
     + (if ends_in_space true input then 1 else 0))%nat.
Proof.
  induction input as [|d rest IH]; [reflexivity|].
  simpl skip_s. destruct (class_s d) eqn:E.
  - rewrite IH, runs_count_cons, E. simpl. rewrite E. reflexivity.
  - rewrite !runs_count_cons, E. simpl. rewrite E. reflexivity.
Qed.

Lemma split_loop_length (n : nat) :
  forall T input : jsstring,
    (List.length input <= n)%nat ->
    List.length (split_loop T input)
    = (1 + List.length (runs_after false input)
       + (if ends_in_space false input then 1 else 0))%nat.
Proof.
  induction n as [|n IH]; intros T input Hlen.
  - destruct input; [|simpl in Hlen; lia]. rewrite split_loop_nil. reflexivity.
  - destruct input as [|c rest]; [rewrite split_loop_nil; reflexivity|].
    simpl in Hlen. rewrite split_loop_cons, runs_count_cons.
    simpl ends_in_space.
    destruct (class_s c) eqn:E; simpl List.length.
    + rewrite IH by (pose proof (skip_s_length rest); lia).
      pose proof (skip_s_count rest). simpl. lia.
    + rewrite IH by lia. reflexivity.
Qed.

Lemma take_word_app (w rest : jsstring) :
  forallb (fun c => negb (class_s c)) w = true ->
  take_word (w ++ rest) = w ++ take_word rest.
Proof.
  induction w as [|c w IH]; [reflexivity|].
  simpl. intro H. apply andb_true_iff in H. destruct H as [Hc Hw].
  apply negb_true_iff in Hc. rewrite Hc, (IH Hw). reflexivity.
Qed.

Lemma runs_false_word_app (w rest : jsstring) :
  forallb (fun c => negb (class_s c)) w = true ->
  runs_after false (w ++ rest) = runs_after false rest.
Proof.
  induction w as [|c w IH]; [reflexivity|].
  simpl forallb. intro H. apply andb_true_iff in H. destruct H as [Hc Hw].
  apply negb_true_iff in Hc.
  rewrite <- app_comm_cons, runs_after_cons, Hc, andb_false_r. simpl.
  apply IH, Hw.
Qed.

Lemma runs_word_app (w rest : jsstring) :
  is_word w = true ->
  runs_after true (w ++ rest) = (w ++ take_word rest) :: runs_after false rest.
Proof.
  unfold is_word. destruct w as [|c w]; [discriminate|].
  simpl ToBoolean. rewrite andb_true_l. intro H.
  simpl in H. apply andb_true_iff in H. destruct H as [Hc Hw].
  apply negb_true_iff in Hc.
  rewrite <- app_comm_cons, runs_after_cons, Hc. simpl.
  rewrite Hc, (@take_word_app w rest Hw), (@runs_false_word_app w rest Hw).
  reflexivity.
Qed.

Lemma runs_blank_app (ws rest : jsstring) :
  forallb class_s ws = true ->
  runs_after true (ws ++ rest) = runs_after true rest.
Proof.
  induction ws as [|c ws IH]; [reflexivity|].
  simpl forallb. intro H. apply andb_true_iff in H. destruct H as [Hc Hws].
  rewrite <- app_comm_cons, runs_after_cons, Hc. simpl. apply IH, Hws.
Qed.

Lemma runs_separator_app (b : bool) (sep rest : jsstring) :
  is_separator sep = true ->
  runs_after b (sep ++ rest) = runs_after true rest /\
  take_word (sep ++ rest) = [].
Proof.
  unfold is_separator. destruct sep as [|c sep]; [discriminate|].
  simpl. intro H. apply andb_true_iff in H. destruct H as [Hc Hsep].
  rewrite runs_after_cons, Hc. simpl. split; [|reflexivity].
  apply runs_blank_app, Hsep.
Qed.

Lemma runs_join (sep : jsstring) (words : list jsstring) :
  is_separator sep = true -> forallb is_word words = true ->
  runs_after true (JSArray.join sep words) = words.
Proof.
  intros Hsep. induction words as [|w words IH]; [reflexivity|].
  simpl forallb. intro H. apply andb_true_iff in H. destruct H as [Hw Hwords].
  destruct words as [|w' words].
  - simpl JSArray.join. rewrite <- (app_nil_r w) at 1.
    rewrite (@runs_word_app w [] Hw). simpl. rewrite app_nil_r. reflexivity.
  - change (JSArray.join sep (w :: w' :: words))
      with (w ++ sep ++ JSArray.join sep (w' :: words)).
    rewrite (@runs_word_app w _ Hw).
    destruct (@runs_separator_app false sep (JSArray.join sep (w' :: words)) Hsep)
      as [Hruns Htake].
    rewrite Hruns, Htake, app_nil_r, (IH Hwords). reflexivity.
Qed.

Lemma class_s_cases (c : N) :
  class_s c = true <->
  ((9 <= c <= 13) \/ c = 32 \/ c = 160 \/ c = 5760 \/ (8192 <= c <= 8202)
   \/ c = 8232 \/ c = 8233 \/ c = 8239 \/ c = 8287 \/ c = 12288 \/ c = 65279)%N.
Proof.
  unfold class_s.
  rewrite !orb_true_iff, !andb_true_iff, !N.leb_le, !N.eqb_eq. tauto.
Qed.

End SplitFacts.

(** X26.  What [split] on [\s+] keeps and drops: the tokens hold no white
    space, there is at least one, and end to end they are the units of the
    string that are not white space, in order. *)
Theorem split_tokens :
  forall str : jsstring,
    List.concat (split_s_plus str)
    = List.filter (fun c => negb (class_s c)) str /\
    Forall (fun token => forallb (fun c => negb (class_s c)) token = true)
           (split_s_plus str) /\
    split_s_plus str <> [].
Proof.
  intros [|c rest].
  - repeat split; [repeat constructor|discriminate].
  - unfold split_s_plus. split; [|split].
    + apply (@split_loop_concat (List.length (c :: rest))). lia.
    + apply (@split_loop_tokens (List.length (c :: rest))); [lia|reflexivity].
    + intro H. apply (f_equal (@List.length jsstring)) in H.
      rewrite (@split_loop_length (List.length (c :: rest))) in H by lia.
      discriminate H.
Qed.

(** X27.  Why the tokens are filtered: [split] on [\s+] gives one empty
    token when the string is empty or starts with white space, and one more
    when it ends with white space; all its other tokens are the words.  So
    the number of tokens is the number of words plus these. *)
Theorem split_token_count :
  forall str : jsstring,
    JSArray.length (split_s_plus str)
    = (stringUtils.countWords str
       + (if Boundary.starts_with_word str then 0 else 1)
       + (if Boundary.ends_in_space false str then 1 else 0))%Z.
Proof.
  intros [|c rest]; [reflexivity|].
  rewrite countWords_runs. unfold JSArray.length, split_s_plus.
  rewrite (@split_loop_length (List.length (c :: rest))) by lia.
  rewrite (runs_count_true_false (c :: rest)).
  destruct (Boundary.starts_with_word (c :: rest)),
           (Boundary.ends_in_space false (c :: rest)); lia.
Qed.

(** X28.  Joining and splitting: words joined by a separator made of white
    space are found again, the same words in the same order, by the split
    and filter of [countWords], which therefore returns their number. *)
Theorem split_join_round_trip (sep : jsstring) (words : list jsstring)
        (separator : Boundary.is_separator sep = true)
        (all_words : forallb Boundary.is_word words = true) :
  JSArray.filter ToBoolean (split_s_plus (JSArray.join sep words)) = words /\
  stringUtils.countWords (JSArray.join sep words) = JSArray.length words.
Proof.
  assert (H : JSArray.filter ToBoolean (split_s_plus (JSArray.join sep words)) = words).
  { rewrite kept_tokens_are_runs. apply runs_join; assumption. }
  split; [exact H|].
  unfold stringUtils.countWords. rewrite H. reflexivity.
Qed.

Lemma split_join_round_trip_witness :
  JSArray.filter ToBoolean
    (split_s_plus (JSArray.join [32%N; 9%N] [lit "to"; lit "be"; lit "or"; lit "not"]))
  = [lit "to"; lit "be"; lit "or"; lit "not"] /\
  stringUtils.countWords
    (JSArray.join [32%N; 9%N] [lit "to"; lit "be"; lit "or"; lit "not"])
  = JSArray.length [lit "to"; lit "be"; lit "or"; lit "not"].
Proof.
  apply (@split_join_round_trip [32%N; 9%N] [lit "to"; lit "be"; lit "or"; lit "not"]);
    reflexivity.
Defined.

(** X29.  [capitalize] and [countWords] together: white space having no
    case and the upper case of any other unit being a word, capitalizing a
    string does not change its number of words. *)
Theorem countWords_capitalize (toUppercase : N -> list N)
        (spaces : CaseTable.respects_white_space toUppercase)
        (str : jsstring) (wf : well_formed str = true) :
  stringUtils.countWords (stringUtils.capitalize toUppercase str)
  = stringUtils.countWords str.
Proof.
  destruct str as [|c rest]; [reflexivity|].
  simpl in wf. apply andb_true_iff in wf. destruct wf as [Hc _].
  apply N.ltb_lt in Hc.
  rewrite capitalize_cons, toUpperCase_unit.
  specialize (spaces c Hc). destruct (class_s c) eqn:E.
  - rewrite spaces. rewrite CodePointsToString_cons, encode_unit by exact Hc.
    reflexivity.
  - rewrite !countWords_runs, (@runs_word_app _ rest spaces).
    rewrite runs_count_cons, E. reflexivity.
Qed.

Lemma latin1_fixed (d : N) :
  (d < 97 \/ 122 < d)%N -> d <> 181%N -> d <> 223%N -> d <> 255%N ->
  (d < 224 \/ 254 < d \/ d = 247)%N ->
  latin1_toUppercase d = [d].
Proof.
  intros H1 H2 H3 H4 H5. unfold latin1_toUppercase.
  replace ((97 <=? d)%N && (d <=? 122)%N) with false
    by (symmetry; apply andb_false_iff; rewrite !N.leb_gt; lia).
  replace (d =? 181)%N with false by (symmetry; apply N.eqb_neq; assumption).
  replace (d =? 223)%N with false by (symmetry; apply N.eqb_neq; assumption).
  replace (d =? 255)%N with false by (symmetry; apply N.eqb_neq; assumption).
  replace ((224 <=? d)%N && (d <=? 254)%N && negb (d =? 247)%N) with false;
    [reflexivity|].
  symmetry. rewrite !andb_false_iff, negb_false_iff, !N.leb_gt, N.eqb_eq. lia.
Qed.

Lemma unit_word (u : N) :
  (u < 65536)%N -> class_s u = false ->
  Boundary.is_word (CodePointsToString [u]) = true.
Proof.
  intros Hu E. rewrite CodePointsToString_cons, encode_unit by exact Hu.
  unfold Boundary.is_word. simpl. rewrite E. reflexivity.
Qed.

Lemma latin1_respects_white_space : CaseTable.respects_white_space latin1_toUppercase.
Proof.
  intros c Hc. destruct (class_s c) eqn:E.
  - apply class_s_cases in E. apply latin1_fixed; lia.
  - assert (shifted : (97 <= c <= 122 \/ 224 <= c <= 254)%N ->
                      Boundary.is_word (CodePointsToString [(c - 32)%N]) = true).
    { intro H. apply unit_word; [lia|].
      destruct (class_s (c - 32)) eqn:F; [|reflexivity].
      apply class_s_cases in F. lia. }
    unfold latin1_toUppercase.
    destruct ((97 <=? c)%N && (c <=? 122)%N) eqn:E1.
    { apply andb_true_iff in E1. rewrite !N.leb_le in E1. apply shifted. lia. }
    destruct (c =? 181)%N; [reflexivity|].
    destruct (c =? 223)%N; [reflexivity|].
    destruct (c =? 255)%N; [reflexivity|].
    destruct ((224 <=? c)%N && (c <=? 254)%N && negb (c =? 247)%N) eqn:E5.
    { rewrite !andb_true_iff, !N.leb_le in E5. apply shifted. lia. }
    apply unit_word; assumption.
Qed.

Lemma countWords_capitalize_witness :
  stringUtils.countWords
    (stringUtils.capitalize latin1_toUppercase (223%N :: lit "en dank"))
  = stringUtils.countWords (223%N :: lit "en dank").
Proof.
  apply (@countWords_capitalize latin1_toUppercase latin1_respects_white_space).
  reflexivity.
Defined.
